(** * The free AI provider router (services/ai_router.py)

    A shallow embedding of [FreeAIRouter]: the provider registry, the daily
    quota tracker, the per-provider request adapters and the two fallback
    sweeps [route_text] and [route_vision], followed by the properties of the
    specification that concern them.

    Conventions of the embedding.
    - [self.providers] is a [gmap string ProviderConfig]; the mutable
      [ProviderConfig] objects it holds are the only state of the router, and
      every method takes the registry and returns the new one.
    - [datetime.now()] is an explicit argument [now] of each method that
      reads the clock.
    - The HTTP client is an abstract environment: a type [world] and a
      function [post] that answers one request and moves the environment on.
    - What Python raises is a value of [exn]; a computation that may raise
      returns [res A].  [is_exception] tells the subclasses of [Exception],
      which [except Exception] catches, from the other subclasses of
      [BaseException] (a cancelled task, an interrupt), which it lets pass.
    - One call runs from start to end on its own: the coroutines are read as
      sequential code.  Log records are not modelled. *)

From Stdlib Require Import ZArith String List Bool Lia.
From stdpp Require Import base option gmap strings list fin_maps.

Set Warnings "-register-all".

Local Open Scope string_scope.
Local Open Scope Z_scope.

(** ** Values *)

(** [datetime]: the calendar date (proleptic ordinal) and the time elapsed
    within that day.  The router only ever compares [.date()]. *)
Record datetime := mk_datetime { date : Z; time_of_day : Z }.

(** The values [response.json()] yields and the payloads sent with a request.
    Floats only occur as opaque payload constants, written as a decimal
    mantissa and exponent. *)
Inductive json :=
| JNull
| JBool (b : bool)
| JInt (n : Z)
| JFloat (mantissa exponent : Z)
| JStr (s : string)
| JArr (items : list json)
| JObj (fields : list (string * json)).

(** What can be raised while a provider is called.  [CancelledError] (the
    task awaiting the reply is cancelled) and [KeyboardInterrupt] derive from
    [BaseException] only; the others are subclasses of [Exception]. *)
Inductive exn :=
| TransportError (msg : string)
| HTTPStatusError (status : Z)
| JSONDecodeError
| KeyError (key : string)
| IndexError
| TypeError
| AttributeError
| CancelledError
| KeyboardInterrupt.

(** [isinstance(e, Exception)] *)
Definition is_exception (e : exn) : bool :=
  match e with
  | CancelledError | KeyboardInterrupt => false
  | _ => true
  end.

Inductive res (A : Type) :=
| Ok (a : A)
| Raise (e : exn).
Arguments Ok {A} a.
Arguments Raise {A} e.

#[global] Instance res_bind : MBind res := fun A B f m =>
  match m with
  | Ok a => f a
  | Raise e => Raise e
  end.

(** The text of the ["error"] entry: a literal, or [str(e)]. *)
Inductive error_text :=
| Literal (s : string)
| StrOf (e : exn).

(** The dicts the routing methods return:
    [{"success": True, "response": .., "provider": .., "model": ..}] and
    [{"success": False, "error": .., "provider": ..}]. *)
Inductive result :=
| Success (response : json) (provider : string) (model : option string)
| Failure (error : error_text) (provider : option string).

Definition success (r : result) : bool :=
  match r with
  | Success _ _ _ => true
  | Failure _ _ => false
  end.

Definition provider_of (r : result) : option string :=
  match r with
  | Success _ p _ => Some p
  | Failure _ p => p
  end.

(** ** Provider registry *)

Inductive capability := CapText | CapVision | CapBoth.

Record ProviderConfig := mk_provider {
  name : string;
  endpoint : string;
  model : option string;
  api_key : option string;
  provider_type : capability;
  priority : Z;
  rate_limit : option Z;
  requests_today : Z;
  last_reset : datetime
}.

Definition set_requests_today (n : Z) (p : ProviderConfig) : ProviderConfig :=
  mk_provider (name p) (endpoint p) (model p) (api_key p) (provider_type p)
    (priority p) (rate_limit p) n (last_reset p).

Definition set_last_reset (d : datetime) (p : ProviderConfig) : ProviderConfig :=
  mk_provider (name p) (endpoint p) (model p) (api_key p) (provider_type p)
    (priority p) (rate_limit p) (requests_today p) d.

Definition set_priority (n : Z) (p : ProviderConfig) : ProviderConfig :=
  mk_provider (name p) (endpoint p) (model p) (api_key p) (provider_type p)
    n (rate_limit p) (requests_today p) (last_reset p).

(** Python truth value of an optional string: [None] and "" are false. *)
Definition truthy_str (o : option string) : bool :=
  match o with
  | None => false
  | Some s => negb (String.eqb s "")
  end.

Definition vision_capable (p : ProviderConfig) : bool :=
  match provider_type p with
  | CapVision | CapBoth => true
  | CapText => false
  end.

(** [FreeAIRouter.__init__]: the five descriptors, their credentials read
    from the environment, every [last_reset] filled in by its own call of
    [datetime.now], then a first [_check_daily_reset]. *)
Definition fresh (nm ep : string) (mdl key : option string) (ty : capability)
    (prio : Z) (limit : option Z) (created : datetime) : ProviderConfig :=
  mk_provider nm ep mdl key ty prio limit 0 created.

Definition registry (getenv : string -> option string)
    (t_zen t_gemini t_mistral t_groq t_hf : datetime)
    : gmap string ProviderConfig :=
  list_to_map
    [ ("opencode_zen",
       fresh "OpenCode Zen (grok-code)"
         "https://api.opencode.ai/v1/chat/completions"
         (Some "grok-code") (getenv "OPENCODE_ZEN_API_KEY") CapText 1 None t_zen);
      ("gemini",
       fresh "Google Gemini 2.0 Flash"
         "https://generativelanguage.googleapis.com/v1beta/models/gemini-2.0-flash:generateContent"
         None (getenv "GEMINI_API_KEY") CapVision 1 (Some 1500) t_gemini);
      ("mistral",
       fresh "Mistral AI"
         "https://api.mistral.ai/v1/chat/completions"
         (Some "mistral-small-latest") (getenv "MISTRAL_API_KEY") CapText 2 None t_mistral);
      ("groq",
       fresh "Groq (llama-3.2-90b-vision)"
         "https://api.groq.com/openai/v1/chat/completions"
         (Some "llama-3.2-90b-vision-preview") (getenv "GROQ_API_KEY") CapBoth 2
         (Some 14400) t_groq);
      ("huggingface",
       fresh "HuggingFace Inference"
         "https://api-inference.huggingface.co/models/mistralai/Mistral-7B-Instruct-v0.2"
         None (getenv "HUGGINGFACE_API_KEY") CapText 3 None t_hf) ].

(** ** Quota tracker *)

Definition reset_if_new_day (now : datetime) (p : ProviderConfig) : ProviderConfig :=
  if date (last_reset p) <? date now
  then set_last_reset now (set_requests_today 0 p)
  else p.

Definition _check_daily_reset (now : datetime) (providers : gmap string ProviderConfig)
    : gmap string ProviderConfig :=
  reset_if_new_day now <$> providers.

Definition __init__ (getenv : string -> option string)
    (t_zen t_gemini t_mistral t_groq t_hf now : datetime)
    : gmap string ProviderConfig :=
  _check_daily_reset now (registry getenv t_zen t_gemini t_mistral t_groq t_hf).

Definition _can_use_provider (providers : gmap string ProviderConfig) (key : string) : bool :=
  match providers !! key with
  | None => false
  | Some p =>
      if negb (truthy_str (api_key p)) then false
      else if match rate_limit p with
              | Some limit => negb (limit =? 0) && (limit <=? requests_today p)
              | None => false
              end
      then false
      else true
  end.

(** ** Request adapters *)

Record request := mk_request {
  url : string;
  headers : list (string * string);
  payload : json
}.

Record response := mk_response {
  status_code : Z;
  body : option json   (* [None]: [response.json()] raises *)
}.

Inductive post_outcome :=
| PostRaises (e : exn)
| PostResponse (r : response).

(** [response.raise_for_status()] raises on every status outside 2xx. *)
Definition is_success (status : Z) : bool := (200 <=? status) && (status <? 300).

Definition raise_for_status (r : response) : res unit :=
  if is_success (status_code r) then Ok tt else Raise (HTTPStatusError (status_code r)).

Definition response_json (r : response) : res json :=
  match body r with
  | Some data => Ok data
  | None => Raise JSONDecodeError
  end.

(** Python subscription [data[key]] and [data[0]] on a decoded JSON value.
    A [dict] built by the JSON decoder has string keys only, so [d[0]] is a
    [KeyError]; a non-empty [str] answers [s[0]] with its first character. *)
Fixpoint assoc (key : string) (fields : list (string * json)) : option json :=
  match fields with
  | [] => None
  | (k, v) :: rest => if String.eqb k key then Some v else assoc key rest
  end.

Definition getitem (data : json) (key : string) : res json :=
  match data with
  | JObj fields =>
      match assoc key fields with
      | Some v => Ok v
      | None => Raise (KeyError key)
      end
  | _ => Raise TypeError
  end.

Definition getitem0 (data : json) : res json :=
  match data with
  | JArr (x :: _) => Ok x
  | JArr [] => Raise IndexError
  | JStr (String c _) => Ok (JStr (String c EmptyString))
  | JStr EmptyString => Raise IndexError
  | JObj _ => Raise (KeyError "0")
  | _ => Raise TypeError
  end.

(** [data.get(key, default)]: only a [dict] has the method. *)
Definition dict_get (data : json) (key : string) (default : json) : res json :=
  match data with
  | JObj fields =>
      match assoc key fields with
      | Some v => Ok v
      | None => Ok default
      end
  | _ => Raise AttributeError
  end.

(** An f-string field holding an optional string prints [None] as "None". *)
Definition fmt (o : option string) : string :=
  match o with
  | Some s => s
  | None => "None"
  end.

Definition json_of_opt (o : option string) : json :=
  match o with
  | Some s => JStr s
  | None => JNull
  end.

Definition nl : string := String (Ascii.ascii_of_nat 10) EmptyString.

Definition message (role : string) (content : json) : json :=
  JObj [("role", JStr role); ("content", content)].

(** [messages = []; if system: messages.append(system message);
    messages.append(user message)] *)
Definition chat_messages (prompt : string) (system : option string) : list json :=
  ((if truthy_str system then [message "system" (JStr (fmt system))] else [])
   ++ [message "user" (JStr prompt)])%list.

Definition bearer (p : ProviderConfig) : string * string :=
  ("Authorization", "Bearer " ++ fmt (api_key p)).

Definition chat_payload (mdl : json) (messages : list json)
    (temperature : json) (max_tokens : Z) : json :=
  JObj [("model", mdl); ("messages", JArr messages);
        ("temperature", temperature); ("max_tokens", JInt max_tokens)].

(** [data["choices"][0]["message"]["content"]] *)
Definition chat_content (data : json) : res json :=
  choices ← getitem data "choices";
  first ← getitem0 choices;
  msg ← getitem first "message";
  getitem msg "content".

(** [data["candidates"][0]["content"]["parts"][0]["text"]] *)
Definition gemini_text (data : json) : res json :=
  candidates ← getitem data "candidates";
  first ← getitem0 candidates;
  content ← getitem first "content";
  parts ← getitem content "parts";
  part ← getitem0 parts;
  getitem part "text".

(** [data[0]["generated_text"] if isinstance(data, list)
     else data.get("generated_text", "")] *)
Definition huggingface_text (data : json) : res json :=
  match data with
  | JArr _ => first ← getitem0 data; getitem first "generated_text"
  | _ => dict_get data "generated_text" (JStr "")
  end.

Inductive task_type := TaskText | TaskVision.

(** One entry of the dict [get_quota_status] returns. *)
Inductive remaining := Remaining (n : Z) | Unlimited.

Record quota_status := mk_quota_status {
  qs_name : string;
  qs_configured : bool;
  qs_type : capability;
  qs_requests_today : Z;
  qs_rate_limit : option Z;
  qs_remaining : remaining;
  qs_available : bool
}.

Definition text_providers : list string :=
  ["opencode_zen"; "mistral"; "groq"; "huggingface"].

Definition vision_providers : list string := ["gemini"; "groq"].

Definition exhausted_text : result :=
  Failure (Literal "All text providers failed or exhausted") None.

Definition exhausted_vision : result :=
  Failure (Literal "All vision providers failed or exhausted") None.

(** [self.providers[key].requests_today += 1] *)
Definition record_use (p : ProviderConfig) : ProviderConfig :=
  set_requests_today (requests_today p + 1) p.

Section Router.
Context {world : Type}.
Variable post : world -> request -> post_outcome * world.

(** [response = await client.post(..); response.raise_for_status();
    data = response.json()] *)
Definition post_json (req : request) (w : world) : res json * world :=
  let '(o, w') := post w req in
  (match o with
   | PostRaises e => Raise e
   | PostResponse r => _ ← raise_for_status r; response_json r
   end, w').

Definition _call_opencode_zen (provider : ProviderConfig) (prompt : string)
    (system : option string) (w : world) : res result * world :=
  let messages := chat_messages prompt system in
  let '(data, w') :=
    post_json
      (mk_request (endpoint provider)
         [bearer provider; ("Content-Type", "application/json")]
         (chat_payload (json_of_opt (model provider)) messages (JFloat 7 (-1)) 2000)) w in
  (data ← data; content ← chat_content data;
   Ok (Success content "opencode_zen" (model provider)), w').

Definition _call_mistral (provider : ProviderConfig) (prompt : string)
    (system : option string) (w : world) : res result * world :=
  let messages := chat_messages prompt system in
  let '(data, w') :=
    post_json
      (mk_request (endpoint provider) [bearer provider]
         (chat_payload (json_of_opt (model provider)) messages (JFloat 7 (-1)) 1000)) w in
  (data ← data; content ← chat_content data;
   Ok (Success content "mistral" (model provider)), w').

Definition _call_groq_text (provider : ProviderConfig) (prompt : string)
    (system : option string) (w : world) : res result * world :=
  let messages := chat_messages prompt system in
  let '(data, w') :=
    post_json
      (mk_request (endpoint provider) [bearer provider]
         (chat_payload (JStr "llama-3.1-70b-versatile") messages (JFloat 7 (-1)) 1000)) w in
  (data ← data; content ← chat_content data;
   Ok (Success content "groq" (Some "llama-3.1-70b-versatile")), w').

Definition _call_huggingface (provider : ProviderConfig) (prompt : string)
    (system : option string) (w : world) : res result * world :=
  let full_prompt :=
    if truthy_str system
    then fmt system ++ nl ++ nl ++ "User: " ++ prompt ++ nl ++ nl ++ "Assistant:"
    else "User: " ++ prompt ++ nl ++ nl ++ "Assistant:" in
  let '(data, w') :=
    post_json
      (mk_request (endpoint provider) [bearer provider]
         (JObj [("inputs", JStr full_prompt);
                ("parameters",
                 JObj [("max_new_tokens", JInt 500);
                       ("temperature", JFloat 7 (-1));
                       ("return_full_text", JBool false)])])) w in
  (data ← data; text ← huggingface_text data;
   Ok (Success text "huggingface" (Some "Mistral-7B-Instruct")), w').

Definition _call_gemini_vision (provider : ProviderConfig) (image_base64 prompt : string)
    (system : option string) (w : world) : res result * world :=
  let parts : list json :=
    ((if truthy_str system then [JObj [("text", JStr (fmt system))]] else [])
     ++ [JObj [("text", JStr prompt)];
         JObj [("inline_data",
                JObj [("mime_type", JStr "image/png"); ("data", JStr image_base64)])]])%list in
  let '(data, w') :=
    post_json
      (mk_request (endpoint provider ++ "?key=" ++ fmt (api_key provider)) []
         (JObj [("contents", JArr [JObj [("parts", JArr parts)]]);
                ("generationConfig",
                 JObj [("temperature", JFloat 3 (-1));
                       ("maxOutputTokens", JInt 2000)])])) w in
  (data ← data; text ← gemini_text data;
   Ok (Success text "gemini" (Some "gemini-2.0-flash")), w').

Definition _call_groq_vision (provider : ProviderConfig) (image_base64 prompt : string)
    (system : option string) (w : world) : res result * world :=
  let messages : list json :=
    ((if truthy_str system then [message "system" (JStr (fmt system))] else [])
     ++ [message "user"
           (JArr [JObj [("type", JStr "text"); ("text", JStr prompt)];
                  JObj [("type", JStr "image_url");
                        ("image_url",
                         JObj [("url",
                                JStr ("data:image/png;base64," ++ image_base64))])]])])%list
  in
  let '(data, w') :=
    post_json
      (mk_request (endpoint provider) [bearer provider]
         (chat_payload (json_of_opt (model provider)) messages (JFloat 3 (-1)) 2000)) w in
  (data ← data; content ← chat_content data;
   Ok (Success content "groq" (model provider)), w').

(** The [try] block of a provider call: what the matching branch returned
    or raised, [None] when no branch matched; then the [except Exception]
    clause, which catches the subclasses of [Exception] and lets anything
    else pass, and the final [return]. *)
Definition contain (key : string) (unknown : string)
    (attempt : option (res result * world)) (w : world) : res result * world :=
  match attempt with
  | Some (Ok r, w') => (Ok r, w')
  | Some (Raise e, w') =>
      if is_exception e then (Ok (Failure (StrOf e) (Some key)), w')
      else (Raise e, w')
  | None => (Ok (Failure (Literal unknown) (Some key)), w)
  end.

Definition _call_text_provider (providers : gmap string ProviderConfig) (key : string)
    (prompt : string) (system : option string) (w : world) : res result * world :=
  match providers !! key with
  | None => (Raise (KeyError key), w)
  | Some provider =>
      contain key "Unknown provider"
        (if String.eqb key "opencode_zen" then Some (_call_opencode_zen provider prompt system w)
         else if String.eqb key "mistral" then Some (_call_mistral provider prompt system w)
         else if String.eqb key "groq" then Some (_call_groq_text provider prompt system w)
         else if String.eqb key "huggingface"
              then Some (_call_huggingface provider prompt system w)
         else None) w
  end.

Definition _call_vision_provider (providers : gmap string ProviderConfig) (key : string)
    (image_base64 prompt : string) (system : option string) (w : world)
    : res result * world :=
  match providers !! key with
  | None => (Raise (KeyError key), w)
  | Some provider =>
      contain key "Unknown vision provider"
        (if String.eqb key "gemini"
         then Some (_call_gemini_vision provider image_base64 prompt system w)
         else if String.eqb key "groq"
              then Some (_call_groq_vision provider image_base64 prompt system w)
         else None) w
  end.

(** ** Router *)

(** The [for] loop of [route_text] over the rest of the candidate order.
    The registry is only written on the way out. *)
Fixpoint route_text_loop (providers : gmap string ProviderConfig)
    (prompt : string) (system : option string) (order : list string) (w : world)
    : res result * gmap string ProviderConfig * world :=
  match order with
  | [] => (Ok exhausted_text, providers, w)
  | provider_name :: rest =>
      if negb (_can_use_provider providers provider_name)
      then route_text_loop providers prompt system rest w
      else
        let '(r, w') := _call_text_provider providers provider_name prompt system w in
        match r with
        | Raise e => (Raise e, providers, w')
        | Ok result =>
            if success result
            then match providers !! provider_name with
                 | Some p => (Ok result, <[provider_name := record_use p]> providers, w')
                 | None => (Raise (KeyError provider_name), providers, w')
                 end
            else route_text_loop providers prompt system rest w'
        end
  end.

Definition route_text (now : datetime) (providers : gmap string ProviderConfig)
    (prompt : string) (system : option string) (w : world)
    : res result * gmap string ProviderConfig * world :=
  route_text_loop (_check_daily_reset now providers) prompt system text_providers w.

Fixpoint route_vision_loop (providers : gmap string ProviderConfig)
    (image_base64 prompt : string) (system : option string) (order : list string)
    (w : world) : res result * gmap string ProviderConfig * world :=
  match order with
  | [] => (Ok exhausted_vision, providers, w)
  | provider_name :: rest =>
      if match providers !! provider_name with
         | None => true
         | Some provider => negb (vision_capable provider)
         end
      then route_vision_loop providers image_base64 prompt system rest w
      else if negb (_can_use_provider providers provider_name)
      then route_vision_loop providers image_base64 prompt system rest w
      else
        let '(r, w') :=
          _call_vision_provider providers provider_name image_base64 prompt system w in
        match r with
        | Raise e => (Raise e, providers, w')
        | Ok result =>
            if success result
            then match providers !! provider_name with
                 | Some p => (Ok result, <[provider_name := record_use p]> providers, w')
                 | None => (Raise (KeyError provider_name), providers, w')
                 end
            else route_vision_loop providers image_base64 prompt system rest w'
        end
  end.

Definition route_vision (now : datetime) (providers : gmap string ProviderConfig)
    (image_base64 prompt : string) (system : option string) (w : world)
    : res result * gmap string ProviderConfig * world :=
  route_vision_loop (_check_daily_reset now providers) image_base64 prompt system
    vision_providers w.

(** ** Auxiliary operations *)

Definition quota_entry (providers : gmap string ProviderConfig) (key : string)
    (p : ProviderConfig) : quota_status :=
  mk_quota_status (name p) (truthy_str (api_key p)) (provider_type p)
    (requests_today p) (rate_limit p)
    (match rate_limit p with
     | Some limit => if negb (limit =? 0) then Remaining (limit - requests_today p)
                     else Unlimited
     | None => Unlimited
     end)
    (_can_use_provider providers key).

Definition get_quota_status (now : datetime) (providers : gmap string ProviderConfig)
    : gmap string quota_status * gmap string ProviderConfig :=
  let providers' := _check_daily_reset now providers in
  (map_imap (fun key p => Some (quota_entry providers' key p)) providers', providers').

Fixpoint recommend_loop (providers : gmap string ProviderConfig) (task : task_type)
    (order : list string) : res (option string) :=
  match order with
  | [] => Ok None
  | key :: rest =>
      if _can_use_provider providers key
      then match providers !! key with
           | None => Raise (KeyError key)
           | Some provider =>
               if match task with TaskVision => true | TaskText => false end
                  && negb (vision_capable provider)
               then recommend_loop providers task rest
               else Ok (Some key)
           end
      else recommend_loop providers task rest
  end.

Definition get_recommended_provider (now : datetime)
    (providers : gmap string ProviderConfig) (task : task_type)
    : res (option string) * gmap string ProviderConfig :=
  let providers' := _check_daily_reset now providers in
  (recommend_loop providers' task
     (match task with
      | TaskText => ["opencode_zen"; "mistral"; "groq"; "huggingface"]
      | TaskVision => ["gemini"; "groq"]
      end),
   providers').

(** ** Sequences of calls on one router *)

Inductive call :=
| RouteText (now : datetime) (prompt : string) (system : option string)
| RouteVision (now : datetime) (image_base64 prompt : string) (system : option string)
| GetQuotaStatus (now : datetime)
| GetRecommendedProvider (now : datetime) (task : task_type).

Definition perform (c : call) (providers : gmap string ProviderConfig) (w : world)
    : gmap string ProviderConfig * world :=
  match c with
  | RouteText now prompt system =>
      let '(_, providers', w') := route_text now providers prompt system w in
      (providers', w')
  | RouteVision now image_base64 prompt system =>
      let '(_, providers', w') := route_vision now providers image_base64 prompt system w in
      (providers', w')
  | GetQuotaStatus now => (snd (get_quota_status now providers), w)
  | GetRecommendedProvider now task => (snd (get_recommended_provider now providers task), w)
  end.

Fixpoint run (calls : list call) (providers : gmap string ProviderConfig) (w : world)
    : gmap string ProviderConfig * world :=
  match calls with
  | [] => (providers, w)
  | c :: rest => let '(providers', w') := perform c providers w in run rest providers' w'
  end.
End Router.

(** ** Vocabulary of the specification *)

(** The registry after [n] recorded uses of provider [key]. *)
Definition record_uses (n : nat) (key : string) (providers : gmap string ProviderConfig)
    : gmap string ProviderConfig :=
  Nat.iter n (fun m => match m !! key with
                       | Some p => <[key := record_use p]> m
                       | None => m
                       end) providers.

Definition consumed (providers : gmap string ProviderConfig) (key : string) : option Z :=
  requests_today <$> providers !! key.

(** Where the generated text sits in a reply, read strictly: a key is looked
    up in an object only, an index in an array only. *)
Definition field (key : string) (data : json) : option json :=
  match data with
  | JObj fields => assoc key fields
  | _ => None
  end.

Definition elem0 (data : json) : option json :=
  match data with
  | JArr (x :: _) => Some x
  | _ => None
  end.

Definition is_object (data : json) : bool :=
  match data with
  | JObj _ => true
  | _ => false
  end.

Definition chat_text_field (data : json) : option json :=
  choices ← field "choices" data;
  first ← elem0 choices;
  msg ← field "message" first;
  field "content" msg.

Definition gemini_text_field (data : json) : option json :=
  candidates ← field "candidates" data;
  first ← elem0 candidates;
  content ← field "content" first;
  parts ← field "parts" content;
  part ← elem0 parts;
  field "text" part.

Definition huggingface_text_field (data : json) : option json :=
  match data with
  | JArr _ => first ← elem0 data; field "generated_text" first
  | _ => field "generated_text" data
  end.

Definition text_field_of (key : string) : json -> option json :=
  if String.eqb key "huggingface" then huggingface_text_field else chat_text_field.

Definition vision_field_of (key : string) : json -> option json :=
  if String.eqb key "gemini" then gemini_text_field else chat_text_field.


(** A transport that raises errors only: whatever a request raises is an
    [Exception]. *)
Definition only_exceptions {world : Type}
    (post : world -> request -> post_outcome * world) : Prop :=
  ∀ w req e, fst (post w req) = PostRaises e -> is_exception e = true.

(** A transport that cancels the task at every request. *)
Definition cancelling (w : unit) (req : request) : post_outcome * unit :=
  (PostRaises CancelledError, w).

(** Two registries that differ in the priority of their providers at most. *)
Definition same_but_priority (a b : gmap string ProviderConfig) : Prop :=
  set_priority 0 <$> a = set_priority 0 <$> b.

(** The priority recorded for a provider. *)
Definition priority_of (providers : gmap string ProviderConfig) (key : string) : option Z :=
  priority <$> providers !! key.

(** The candidate order of the vision class names vision-capable providers
    only (the data model's condition on a candidate order). *)
Definition vision_order_capable (providers : gmap string ProviderConfig) : Prop :=
  ∀ key p, key ∈ vision_providers → providers !! key = Some p → vision_capable p = true.

(** The gate of one iteration of [route_vision]. *)
Definition vision_gate (providers : gmap string ProviderConfig) (key : string) : bool :=
  match providers !! key with
  | None => false
  | Some provider => vision_capable provider && _can_use_provider providers key
  end.

(** A counter within its limit. *)
Definition within_limit (key : string) (limit : Z) (providers : gmap string ProviderConfig)
    : Prop :=
  ∃ p, providers !! key = Some p ∧ rate_limit p = Some limit ∧ requests_today p <= limit.

(** Test doubles for the transport: [scripted] answers the n-th request with
    the n-th outcome of a script and keeps a log of the requests it saw;
    [always o] answers every request with [o]. *)
Definition scripted (w : list post_outcome * list request) (req : request)
    : post_outcome * (list post_outcome * list request) :=
  match fst w with
  | [] => (PostRaises (TransportError "connection refused"), ([], (snd w ++ [req])%list))
  | o :: script => (o, (script, (snd w ++ [req])%list))
  end.

Definition always (o : post_outcome) (w : unit) (req : request) : post_outcome * unit :=
  (o, w).

Section Sweep.
Context {world : Type}.
Variable gate : string -> bool.
Variable call_provider : string -> world -> res result * world.
Variable exhausted : result.

(** The loop both routing methods run, with the gate and the adapter call
    of the class left open. *)
Fixpoint sweep (providers : gmap string ProviderConfig) (order : list string) (w : world)
    : res result * gmap string ProviderConfig * world :=
  match order with
  | [] => (Ok exhausted, providers, w)
  | key :: rest =>
      if negb (gate key) then sweep providers rest w
      else
        let '(r, w') := call_provider key w in
        match r with
        | Raise e => (Raise e, providers, w')
        | Ok result =>
            if success result
            then match providers !! key with
                 | Some p => (Ok result, <[key := record_use p]> providers, w')
                 | None => (Raise (KeyError key), providers, w')
                 end
            else sweep providers rest w'
        end
  end.

(** [fruitless order w w']: starting in environment [w], every candidate of
    [order] is skipped by the gate or called and reports failure, and the
    environment is left as [w']. *)
Inductive fruitless : list string -> world -> world -> Prop :=
| fruitless_nil w : fruitless [] w w
| fruitless_skip key rest w w' :
    gate key = false -> fruitless rest w w' -> fruitless (key :: rest) w w'
| fruitless_fail key rest w r w1 w' :
    gate key = true -> call_provider key w = (Ok r, w1) -> success r = false ->
    fruitless rest w1 w' -> fruitless (key :: rest) w w'.
End Sweep.

(** ** Example registries and replies *)

Definition day (d : Z) : datetime := mk_datetime d 0.

(** A credentialed text provider with the given limit, counter and date of
    last reset. *)
Definition sample (limit : option Z) (used : Z) (reset_on : Z) : ProviderConfig :=
  mk_provider "Sample" "https://sample.example/v1" (Some "sample-1") (Some "secret")
    CapText 1 limit used (day reset_on).

Definition ok_reply (data : json) : post_outcome :=
  PostResponse (mk_response 200 (Some data)).

Definition chat_reply (text : string) : json :=
  JObj [("choices", JArr [JObj [("message", JObj [("content", JStr text)])]])].

Definition server_error : post_outcome := PostResponse (mk_response 503 None).

(** An environment with every credential but Mistral's, and the router built
    from it on day 10. *)
Definition sample_env (var : string) : option string :=
  if String.eqb var "MISTRAL_API_KEY" then None else Some ("key-of-" ++ var).

Definition sample_router : gmap string ProviderConfig :=
  __init__ sample_env (day 10) (day 10) (day 10) (day 10) (day 10) (day 10).

(** Candidate A with a limit of 1 and candidate B without limit, under the
    names of the first two text candidates. *)
Definition two_candidates : gmap string ProviderConfig :=
  {[ "opencode_zen" := sample (Some 1) 0 10; "mistral" := sample None 0 10 ]}.

Definition gemini_reply (text : string) : json :=
  JObj [("candidates",
         JArr [JObj [("content", JObj [("parts", JArr [JObj [("text", JStr text)]])])]])].

(** ** Vocabulary of the further properties *)

(** The candidate order and the gate [get_recommended_provider] applies for
    a class. *)
Definition class_order (task : task_type) : list string :=
  match task with
  | TaskText => text_providers
  | TaskVision => vision_providers
  end.

Definition class_gate (task : task_type) (providers : gmap string ProviderConfig)
    (key : string) : bool :=
  match task with
  | TaskText => _can_use_provider providers key
  | TaskVision => vision_gate providers key
  end.

(** The fields of a provider that describe it, as opposed to its counter and
    its date of last reset. *)
Definition descriptor (p : ProviderConfig)
    : string * string * option string * option string * capability * Z * option Z :=
  (name p, endpoint p, model p, api_key p, provider_type p, priority p, rate_limit p).

(** The environment variable [__init__] reads for each provider. *)
Definition credential_variables : list (string * string) :=
  [ ("opencode_zen", "OPENCODE_ZEN_API_KEY"); ("gemini", "GEMINI_API_KEY");
    ("mistral", "MISTRAL_API_KEY"); ("groq", "GROQ_API_KEY");
    ("huggingface", "HUGGINGFACE_API_KEY") ].

(** A transport that behaves as [post] and keeps the list of the requests it
    was given. *)
Definition logged {world : Type} (post : world -> request -> post_outcome * world)
    (w : world * list request) (req : request) : post_outcome * (world * list request) :=
  let '(o, w') := post (fst w) req in (o, (w', (snd w ++ [req])%list)).

(** A request sent to provider [p] with its credential: to its endpoint with
    the bearer header, or to its endpoint with the key as query parameter. *)
Definition addressed_to (p : ProviderConfig) (req : request) : Prop :=
  (url req = endpoint p ∧ bearer p ∈ headers req) ∨
  url req = endpoint p ++ "?key=" ++ fmt (api_key p).

(** * Properties *)

(** ** Quota tracker *)

Lemma lookup_check_daily_reset now (providers : gmap string ProviderConfig) key :
  _check_daily_reset now providers !! key = reset_if_new_day now <$> providers !! key.
Proof. apply lookup_fmap. Qed.

Lemma reset_if_new_day_cases now p :
  (date (last_reset p) < date now ∧
   reset_if_new_day now p = set_last_reset now (set_requests_today 0 p)) ∨
  (date now <= date (last_reset p) ∧ reset_if_new_day now p = p).
Proof.
  unfold reset_if_new_day.
  destruct (Z.ltb_spec (date (last_reset p)) (date now)); [left | right]; done.
Qed.

Lemma reset_if_new_day_fresh now p :
  date now <= date (last_reset p) -> reset_if_new_day now p = p.
Proof.
  intros H. destruct (reset_if_new_day_cases now p) as [[? _]|[_ ?]]; [lia | done].
Qed.

Lemma reset_if_new_day_date now p : date now <= date (last_reset (reset_if_new_day now p)).
Proof.
  destruct (reset_if_new_day_cases now p) as [[? ->]|[? ->]]; simpl; lia.
Qed.

Lemma check_daily_reset_fresh now (providers : gmap string ProviderConfig) :
  (∀ key p, providers !! key = Some p -> date now <= date (last_reset p)) ->
  _check_daily_reset now providers = providers.
Proof.
  intros H. apply map_eq. intros key. rewrite lookup_check_daily_reset.
  destruct (providers !! key) as [p|] eqn:E; simpl; [|done].
  by rewrite (reset_if_new_day_fresh now p (H key p E)).
Qed.

Lemma can_use_true (providers : gmap string ProviderConfig) key :
  _can_use_provider providers key = true <->
  ∃ p, providers !! key = Some p ∧ truthy_str (api_key p) = true ∧
       match rate_limit p with
       | Some limit => limit = 0 ∨ requests_today p < limit
       | None => True
       end.
Proof.
  unfold _can_use_provider. destruct (providers !! key) as [p|].
  2: { split; [done | intros (? & ? & _); done]. }
  destruct (truthy_str (api_key p)) eqn:Hkey; simpl.
  2: { split; [done | intros (q & [= <-] & ? & _); congruence]. }
  destruct (rate_limit p) as [limit|] eqn:Hlimit.
  - destruct (Z.eqb_spec limit 0), (Z.leb_spec limit (requests_today p)); simpl;
      (split; [intros ?; exists p; rewrite Hlimit; split_and!; auto; lia
              |intros (q & [= <-] & _ & Hq); rewrite Hlimit in Hq; auto; lia]).
  - split; [intros _; exists p; by rewrite Hlimit | done].
Qed.

Lemma can_use_false (providers : gmap string ProviderConfig) key :
  _can_use_provider providers key = false <->
  providers !! key = None ∨
  ∃ p, providers !! key = Some p ∧
       (truthy_str (api_key p) = false ∨
        ∃ limit, rate_limit p = Some limit ∧ limit ≠ 0 ∧ limit <= requests_today p).
Proof.
  destruct (_can_use_provider providers key) eqn:E.
  - apply can_use_true in E as (p & Hp & Hkey & Hlimit).
    split; [done|]. intros [Hn|(q & Hq & Hbad)]; [congruence|].
    assert (q = p) as -> by congruence.
    destruct Hbad as [?|(limit & Hl & ? & ?)]; [congruence|].
    rewrite Hl in Hlimit. lia.
  - split; [intros _|done].
    destruct (providers !! key) as [p|] eqn:Hp; [right; exists p; split; [done|] | by left].
    destruct (truthy_str (api_key p)) eqn:Hkey; [right | by left].
    destruct (rate_limit p) as [limit|] eqn:Hlimit.
    + exists limit. split; [done|].
      destruct (decide (limit ≠ 0 ∧ limit <= requests_today p)) as [|Hn]; [done|].
      assert (_can_use_provider providers key = true); [|congruence].
      apply can_use_true. exists p. rewrite Hlimit. split_and!; auto.
      destruct (decide (limit = 0)); [by left | right; lia].
    + assert (_can_use_provider providers key = true); [|congruence].
      apply can_use_true. exists p. by rewrite Hlimit.
Qed.

Lemma lookup_record_uses n key (providers : gmap string ProviderConfig) p :
  providers !! key = Some p ->
  record_uses n key providers !! key
  = Some (set_requests_today (requests_today p + Z.of_nat n) p).
Proof.
  intros Hp. induction n as [|n IH].
  - simpl. rewrite Hp, Z.add_0_r. by destruct p.
  - unfold record_uses in *. rewrite Nat.iter_succ, IH.
    rewrite lookup_insert_eq. unfold record_use, set_requests_today; simpl.
    do 2 f_equal. lia.
Qed.

(** ** Admissibility *)

(** On a registry other than the constructed one: a limit of 0 never blocks,
    since [_can_use_provider] tests the limit for truth and 0 is false.  No
    provider of the router has such a limit. *)
Lemma zero_limit_stays_admissible :
  ¬ (∀ (providers : gmap string ProviderConfig) key,
       _can_use_provider providers key = false <->
       providers !! key = None ∨
       ∃ p, providers !! key = Some p ∧
            (truthy_str (api_key p) = false ∨
             ∃ limit, rate_limit p = Some limit ∧ limit <= requests_today p)).
Proof.
  intros H.
  destruct (H {[ "p" := sample (Some 0) 0 10 ]} "p") as [_ Hfalse].
  assert (_can_use_provider {[ "p" := sample (Some 0) 0 10 ]} "p" = false) as Hn.
  { apply Hfalse. right. exists (sample (Some 0) 0 10). split; [done|].
    right. exists 0. done. }
  vm_compute in Hn. discriminate.
Qed.

(** [_can_use_provider] on an arbitrary registry: it answers false exactly
    when the provider is unknown, its credential is absent or empty, or its
    limit is set, is not 0 and is reached by the counter. *)
Lemma can_use_provider_spec :
  (∀ (providers : gmap string ProviderConfig) key,
     _can_use_provider providers key = false <->
     providers !! key = None ∨
     ∃ p, providers !! key = Some p ∧
          (truthy_str (api_key p) = false ∨
           ∃ limit, rate_limit p = Some limit ∧ limit ≠ 0 ∧ limit <= requests_today p)) ∧
  (∀ (providers : gmap string ProviderConfig) key p,
     providers !! key = Some p -> truthy_str (api_key p) = false ->
     _can_use_provider providers key = false) ∧
  (∀ (providers : gmap string ProviderConfig) key p limit,
     providers !! key = Some p -> truthy_str (api_key p) = true ->
     rate_limit p = Some limit -> 0 < limit -> requests_today p = 0 ->
     (∀ n : nat,
        _can_use_provider (record_uses n key providers) key = (Z.of_nat n <? limit)) ∧
     (∀ now, date (last_reset p) < date now ->
        let rolled := _check_daily_reset now (record_uses (Z.to_nat limit) key providers) in
        _can_use_provider rolled key = true ∧ consumed rolled key = Some 0)).
Proof.
  split_and!.
  - apply can_use_false.
  - intros providers key p Hp Hkey. apply can_use_false. right. exists p. auto.
  - intros providers key p limit Hp Hkey Hlimit Hpos Hzero. split.
    + intros n. unfold _can_use_provider.
      rewrite (lookup_record_uses n key providers p Hp). simpl.
      rewrite Hkey, Hlimit, Hzero. simpl.
      destruct (Z.eqb_spec limit 0); [lia|]. simpl.
      destruct (Z.leb_spec limit (0 + Z.of_nat n)), (Z.ltb_spec (Z.of_nat n) limit);
        simpl; auto; lia.
    + intros now Hnow rolled. subst rolled. unfold _can_use_provider, consumed.
      rewrite lookup_check_daily_reset, (lookup_record_uses _ key providers p Hp). simpl.
      unfold reset_if_new_day. simpl.
      destruct (Z.ltb_spec (date (last_reset p)) (date now)); [|lia]. simpl.
      rewrite Hkey, Hlimit. simpl.
      destruct (Z.eqb_spec limit 0); [lia|]. simpl.
      destruct (Z.leb_spec limit 0); [lia|]. done.
Qed.

(** ** Daily reset *)

Lemma check_daily_reset_entry now (providers : gmap string ProviderConfig) key p :
  providers !! key = Some p ->
  ∃ p', _check_daily_reset now providers !! key = Some p' ∧
        (date (last_reset p) < date now ->
         requests_today p' = 0 ∧ last_reset p' = now) ∧
        (date now <= date (last_reset p) -> p' = p).
Proof.
  intros Hp. exists (reset_if_new_day now p).
  rewrite lookup_check_daily_reset, Hp. split; [done|].
  destruct (reset_if_new_day_cases now p) as [[? ->]|[? ->]]; split; intros; try lia; done.
Qed.

(** C4: the lazy reset zeroes a counter and stamps the date exactly when the
    stored last-reset date precedes the current date; a second access on the
    same date changes nothing, also when the counter moved in between. *)
Theorem daily_reset_once_per_date :
  (∀ now (providers : gmap string ProviderConfig) key p,
     providers !! key = Some p ->
     ∃ p', _check_daily_reset now providers !! key = Some p' ∧
           (date (last_reset p) < date now ->
            requests_today p' = 0 ∧ last_reset p' = now) ∧
           (date now <= date (last_reset p) -> p' = p)) ∧
  (∀ now now' (providers : gmap string ProviderConfig),
     date now' = date now ->
     _check_daily_reset now' (_check_daily_reset now providers)
     = _check_daily_reset now providers) ∧
  (∀ now now' (providers : gmap string ProviderConfig) key p n,
     date now' = date now ->
     _check_daily_reset now providers !! key = Some p ->
     _check_daily_reset now'
       (<[key := set_requests_today n p]> (_check_daily_reset now providers))
     = <[key := set_requests_today n p]> (_check_daily_reset now providers)).
Proof.
  assert (∀ now now' (providers : gmap string ProviderConfig) key p,
            date now' = date now ->
            _check_daily_reset now providers !! key = Some p ->
            date now' <= date (last_reset p)) as Hstamp.
  { intros now now' providers key p Hd. rewrite lookup_check_daily_reset.
    destruct (providers !! key) as [q|]; simpl; [|done]. intros [= <-].
    rewrite Hd. apply reset_if_new_day_date. }
  split_and!.
  - apply check_daily_reset_entry.
  - intros now now' providers Hd. apply check_daily_reset_fresh.
    intros key p. by apply Hstamp.
  - intros now now' providers key p n Hd Hp. apply check_daily_reset_fresh.
    intros k q. destruct (decide (key = k)) as [->|Hne].
    + rewrite lookup_insert_eq. intros [= <-]. simpl. by eapply Hstamp.
    + rewrite lookup_insert_ne by done. by apply Hstamp.
Qed.

Lemma daily_reset_once_per_date_witness :
  let stale : gmap string ProviderConfig := {[ "p" := sample (Some 5) 3 10 ]} in
  consumed (_check_daily_reset (day 11) stale) "p" = Some 0 ∧
  _check_daily_reset (mk_datetime 11 500) (_check_daily_reset (day 11) stale)
  = _check_daily_reset (day 11) stale.
Proof.
  intros stale. split.
  - destruct (proj1 daily_reset_once_per_date (day 11) stale "p" (sample (Some 5) 3 10))
      as (p' & Hp' & Hreset & _); [reflexivity|].
    unfold consumed. rewrite Hp'. simpl. f_equal. apply Hreset. simpl. lia.
  - apply (proj1 (proj2 daily_reset_once_per_date)). reflexivity.
Defined.

(** ** Auxiliary operations *)

(** Both auxiliary operations start with the lazy reset, so on the first
    access of a new date they zero every stale counter: the registry does not
    stay as it was. *)
Lemma quota_status_resets_stale_counter :
  ¬ (∀ now (providers : gmap string ProviderConfig) task key,
       (consumed (snd (get_quota_status now providers)) key = consumed providers key ∧
        last_reset <$> snd (get_quota_status now providers) !! key
        = last_reset <$> providers !! key) ∧
       (consumed (snd (get_recommended_provider now providers task)) key
        = consumed providers key ∧
        last_reset <$> snd (get_recommended_provider now providers task) !! key
        = last_reset <$> providers !! key)).
Proof.
  intros H.
  destruct (H (day 11) {[ "p" := sample (Some 5) 3 10 ]} TaskText "p") as [[Hn _] _].
  vm_compute in Hn. discriminate.
Qed.

(** C8 (amended): [get_quota_status] and [get_recommended_provider] change
    the registry by the lazy date reset and by nothing else: a provider whose
    last-reset date does not precede the current date is left as it was, and
    one whose last-reset date precedes it gets a counter of 0 and the current
    time as last-reset date. *)
Theorem auxiliary_operations_only_reset :
  ∀ now (providers : gmap string ProviderConfig) task,
    snd (get_quota_status now providers) = _check_daily_reset now providers ∧
    snd (get_recommended_provider now providers task) = _check_daily_reset now providers ∧
    (∀ after key p,
       after = snd (get_quota_status now providers) ∨
       after = snd (get_recommended_provider now providers task) ->
       providers !! key = Some p ->
       ∃ p', after !! key = Some p' ∧
             (date now <= date (last_reset p) -> p' = p) ∧
             (date (last_reset p) < date now ->
              p' = set_last_reset now (set_requests_today 0 p))) ∧
    ((∀ key p, providers !! key = Some p -> date now <= date (last_reset p)) ->
     snd (get_quota_status now providers) = providers ∧
     snd (get_recommended_provider now providers task) = providers).
Proof.
  intros now providers task. split_and!; try done.
  - intros after key p Hafter Hp.
    assert (after = _check_daily_reset now providers) as -> by (by destruct Hafter).
    exists (reset_if_new_day now p). rewrite lookup_check_daily_reset, Hp.
    split; [done|].
    destruct (reset_if_new_day_cases now p) as [[? ->]|[? ->]]; split; intros; try lia; done.
  - intros Hfresh. simpl. by rewrite check_daily_reset_fresh.
Qed.

Lemma auxiliary_operations_only_reset_witness :
  let providers : gmap string ProviderConfig := {[ "p" := sample (Some 5) 3 10 ]} in
  snd (get_quota_status (mk_datetime 10 900) providers) = providers ∧
  snd (get_recommended_provider (mk_datetime 10 900) providers TaskVision) = providers.
Proof.
  intros providers.
  apply (proj2 (proj2 (proj2
           (auxiliary_operations_only_reset (mk_datetime 10 900) providers TaskVision)))).
  intros key p. unfold providers. rewrite lookup_singleton.
  case_decide; [|done]. intros [= <-]. simpl. lia.
Defined.

(** ** Reading a reply *)

Lemma getitem_ok data key v : getitem data key = Ok v -> field key data = Some v.
Proof.
  destruct data; simpl; try done. destruct (assoc key fields); by intros [= ->].
Qed.

Lemma getitem0_object data x key v :
  getitem0 data = Ok x -> getitem x key = Ok v -> elem0 data = Some x.
Proof.
  destruct data as [| | | |s|items|]; simpl; try done.
  - destruct s; [done|]. intros [= <-]. done.
  - destruct items; [done|]. by intros [= ->].
Qed.

Lemma chat_content_ok data v : chat_content data = Ok v -> chat_text_field data = Some v.
Proof.
  unfold chat_content, chat_text_field.
  destruct (getitem data "choices") as [choices|] eqn:E1; simpl; [|done].
  destruct (getitem0 choices) as [first|] eqn:E2; simpl; [|done].
  destruct (getitem first "message") as [msg|] eqn:E3; simpl; [|done].
  intros E4.
  rewrite (getitem_ok _ _ _ E1); simpl.
  rewrite (getitem0_object _ _ _ _ E2 E3); simpl.
  rewrite (getitem_ok _ _ _ E3); simpl.
  by apply getitem_ok.
Qed.

Lemma gemini_text_ok data v : gemini_text data = Ok v -> gemini_text_field data = Some v.
Proof.
  unfold gemini_text, gemini_text_field.
  destruct (getitem data "candidates") as [candidates|] eqn:E1; simpl; [|done].
  destruct (getitem0 candidates) as [first|] eqn:E2; simpl; [|done].
  destruct (getitem first "content") as [content|] eqn:E3; simpl; [|done].
  destruct (getitem content "parts") as [parts|] eqn:E4; simpl; [|done].
  destruct (getitem0 parts) as [part|] eqn:E5; simpl; [|done].
  intros E6.
  rewrite (getitem_ok _ _ _ E1); simpl.
  rewrite (getitem0_object _ _ _ _ E2 E3); simpl.
  rewrite (getitem_ok _ _ _ E3); simpl.
  rewrite (getitem_ok _ _ _ E4); simpl.
  rewrite (getitem0_object _ _ _ _ E5 E6); simpl.
  by apply getitem_ok.
Qed.

Lemma huggingface_text_ok data v :
  huggingface_text data = Ok v ->
  huggingface_text_field data = Some v ∨
  (is_object data = true ∧ huggingface_text_field data = None ∧ v = JStr "").
Proof.
  destruct data as [| | | | |items|fields]; simpl; try done.
  - destruct items as [|first rest]; simpl; [done|].
    intros E. left. by apply getitem_ok.
  - destruct (assoc "generated_text" fields); intros [= <-]; auto.
Qed.

Lemma getitem_raises data key e : getitem data key = Raise e -> is_exception e = true.
Proof.
  destruct data; simpl; try (by intros [= <-]).
  destruct (assoc key fields); [done|]. by intros [= <-].
Qed.

Lemma getitem0_raises data e : getitem0 data = Raise e -> is_exception e = true.
Proof.
  destruct data as [| | | |s|items|]; simpl; try (by intros [= <-]).
  - destruct s; [|done]. by intros [= <-].
  - destruct items; [|done]. by intros [= <-].
Qed.

Lemma chat_content_raises data e : chat_content data = Raise e -> is_exception e = true.
Proof.
  unfold chat_content.
  destruct (getitem data "choices") as [choices|] eqn:E1; simpl;
    [|intros [= <-]; by eapply getitem_raises].
  destruct (getitem0 choices) as [first|] eqn:E2; simpl;
    [|intros [= <-]; by eapply getitem0_raises].
  destruct (getitem first "message") as [msg|] eqn:E3; simpl;
    [|intros [= <-]; by eapply getitem_raises].
  apply getitem_raises.
Qed.

Lemma gemini_text_raises data e : gemini_text data = Raise e -> is_exception e = true.
Proof.
  unfold gemini_text.
  destruct (getitem data "candidates") as [candidates|] eqn:E1; simpl;
    [|intros [= <-]; by eapply getitem_raises].
  destruct (getitem0 candidates) as [first|] eqn:E2; simpl;
    [|intros [= <-]; by eapply getitem0_raises].
  destruct (getitem first "content") as [content|] eqn:E3; simpl;
    [|intros [= <-]; by eapply getitem_raises].
  destruct (getitem content "parts") as [parts|] eqn:E4; simpl;
    [|intros [= <-]; by eapply getitem_raises].
  destruct (getitem0 parts) as [part|] eqn:E5; simpl;
    [|intros [= <-]; by eapply getitem0_raises].
  apply getitem_raises.
Qed.

Lemma huggingface_text_raises data e :
  huggingface_text data = Raise e -> is_exception e = true.
Proof.
  destruct data as [| | | | |items|fields]; simpl; try (by intros [= <-]).
  - destruct items as [|first rest]; simpl; [by intros [= <-]|]. apply getitem_raises.
  - by destruct (assoc "generated_text" fields).
Qed.

(** ** What an adapter returns *)

Section Adapters.
Context {world : Type}.
Variable post : world -> request -> post_outcome * world.

Lemma post_json_ok req w data w' :
  post_json post req w = (Ok data, w') ->
  ∃ r, post w req = (PostResponse r, w') ∧
       is_success (status_code r) = true ∧ body r = Some data.
Proof.
  unfold post_json. destruct (post w req) as [[e|r] w1]; [done|].
  unfold raise_for_status, response_json.
  destruct (is_success (status_code r)) eqn:Hs; simpl; [|intros [=]].
  destruct (body r) eqn:Hb; simpl; [|intros [=]]. intros [= <- <-]. by exists r.
Qed.

(** The shape the six adapters share: post one request, read the text, wrap
    it in a success dict. *)
Lemma adapter_shape req w (read : json -> res json) (wrap : json -> result) r w' :
  (let '(data, w1) := post_json post req w in
   (data ← data; text ← read data; Ok (wrap text), w1)) = (Ok r, w') ->
  ∃ reply data text, post w req = (PostResponse reply, w') ∧
       is_success (status_code reply) = true ∧ body reply = Some data ∧
       read data = Ok text ∧ r = wrap text.
Proof.
  destruct (post_json post req w) as [[data|e] w1] eqn:E; simpl; [|done].
  destruct (read data) as [text|] eqn:Er; simpl; [|done].
  intros [= <- <-]. apply post_json_ok in E as (reply & ? & ? & ?).
  by exists reply, data, text.
Qed.

Lemma post_json_raises req w e w' :
  post_json post req w = (Raise e, w') ->
  is_exception e = true ∨ post w req = (PostRaises e, w').
Proof.
  unfold post_json. destruct (post w req) as [[e0|r] w1].
  - intros [= <- <-]. by right.
  - unfold raise_for_status, response_json.
    destruct (is_success (status_code r)); simpl; [|intros [= <- _]; by left].
    destruct (body r); simpl; [done|]. intros [= <- _]. by left.
Qed.

Lemma adapter_raises req w (read : json -> res json) (wrap : json -> result) e w' :
  (∀ data e, read data = Raise e -> is_exception e = true) ->
  (let '(data, w1) := post_json post req w in
   (data ← data; text ← read data; Ok (wrap text), w1)) = (Raise e, w') ->
  is_exception e = true ∨ post w req = (PostRaises e, w').
Proof.
  intros Hread.
  destruct (post_json post req w) as [[data|e0] w1] eqn:E; simpl.
  - destruct (read data) as [text|e1] eqn:Er; simpl; [done|].
    intros [= <- _]. left. by eapply Hread.
  - intros [= <- <-]. by apply post_json_raises.
Qed.

(** What the [try] block hands on: a dict, or what [except Exception] does
    not catch. *)
Lemma contain_cases key unknown (attempt : option (res result * world)) (w : world) :
  (∀ r w1, attempt = Some (Ok r, w1) -> provider_of r = Some key) ->
  ∃ x w', contain key unknown attempt w = (x, w') ∧
    match x with
    | Ok r => provider_of r = Some key
    | Raise e => is_exception e = false ∧ attempt = Some (Raise e, w')
    end.
Proof.
  intros Hserved. destruct attempt as [[[r|e] w1]|]; simpl.
  - eexists _, _. split; [done|]. by apply (Hserved r w1).
  - destruct (is_exception e) eqn:He; eexists _, _; (split; [done|]); done.
  - eexists _, _. split; done.
Qed.

Lemma contain_success key unknown attempt (w : world) text served mdl w' :
  contain key unknown attempt w = (Ok (Success text served mdl), w') ->
  attempt = Some (Ok (Success text served mdl), w').
Proof.
  destruct attempt as [[[r|e] w1]|]; simpl; try destruct (is_exception e);
    intros H; inversion H; by subst.
Qed.

Lemma contain_failure key unknown (attempt : option (res result * world)) w err served w' :
  (∀ r w1, attempt = Some (Ok r, w1) -> provider_of r = Some key) ->
  contain key unknown attempt w = (Ok (Failure err served), w') -> served = Some key.
Proof.
  intros Hserved.
  destruct attempt as [[[r|e] w1]|]; simpl; try destruct (is_exception e);
    intros H; inversion H; subst; try done.
  apply (Hserved _ _ eq_refl).
Qed.

Lemma contain_cases_adapter key unknown (attempt : res result * world) (w : world) :
  (∀ r w1, attempt = (Ok r, w1) -> provider_of r = Some key) ->
  (∀ e w1, attempt = (Raise e, w1) ->
           ∃ req, is_exception e = true ∨ post w req = (PostRaises e, w1)) ->
  ∃ x w', contain key unknown (Some attempt) w = (x, w') ∧
    match x with
    | Ok r => provider_of r = Some key
    | Raise e => is_exception e = false ∧ ∃ req, post w req = (PostRaises e, w')
    end.
Proof.
  intros Hok Hraise.
  destruct (contain_cases key unknown (Some attempt) w) as (x & w' & Heq & Hx).
  { intros r w1 [= ->]. by eapply Hok. }
  exists x, w'. split; [done|]. destruct x as [r|e]; [done|].
  destruct Hx as [He [= ->]]. split; [done|].
  destruct (Hraise e w' eq_refl) as (req & [?|?]); [congruence|by exists req].
Qed.
End Adapters.

Section Calls.
Context {world : Type}.
Variable post : world -> request -> post_outcome * world.

Ltac adapter_case read_raises :=
  apply contain_cases_adapter;
  [ intros r w1 E; apply adapter_shape in E as (? & ? & ? & _ & _ & _ & _ & ->); done
  | intros e w1 E; eexists; eapply adapter_raises; [|exact E]; exact read_raises ].

Lemma call_text_provider_cases (providers : gmap string ProviderConfig) key p
    prompt system w :
  providers !! key = Some p ->
  ∃ x w', _call_text_provider post providers key prompt system w = (x, w') ∧
    match x with
    | Ok r => provider_of r = Some key
    | Raise e => is_exception e = false ∧ ∃ req, post w req = (PostRaises e, w')
    end.
Proof.
  intros Hp. unfold _call_text_provider. rewrite Hp.
  destruct (String.eqb_spec key "opencode_zen") as [->|_];
    [unfold _call_opencode_zen; adapter_case chat_content_raises|].
  destruct (String.eqb_spec key "mistral") as [->|_];
    [unfold _call_mistral; adapter_case chat_content_raises|].
  destruct (String.eqb_spec key "groq") as [->|_];
    [unfold _call_groq_text; adapter_case chat_content_raises|].
  destruct (String.eqb_spec key "huggingface") as [->|_];
    [unfold _call_huggingface; adapter_case huggingface_text_raises|].
  simpl. eexists _, _. split; done.
Qed.

Lemma call_vision_provider_cases (providers : gmap string ProviderConfig) key p
    image_base64 prompt system w :
  providers !! key = Some p ->
  ∃ x w', _call_vision_provider post providers key image_base64 prompt system w
          = (x, w') ∧
    match x with
    | Ok r => provider_of r = Some key
    | Raise e => is_exception e = false ∧ ∃ req, post w req = (PostRaises e, w')
    end.
Proof.
  intros Hp. unfold _call_vision_provider. rewrite Hp.
  destruct (String.eqb_spec key "gemini") as [->|_];
    [unfold _call_gemini_vision; adapter_case gemini_text_raises|].
  destruct (String.eqb_spec key "groq") as [->|_];
    [unfold _call_groq_vision; adapter_case chat_content_raises|].
  simpl. eexists _, _. split; done.
Qed.

Lemma call_text_provider_served (providers : gmap string ProviderConfig) key p
    prompt system w r w' :
  providers !! key = Some p ->
  _call_text_provider post providers key prompt system w = (Ok r, w') ->
  provider_of r = Some key.
Proof.
  intros Hp Hcall.
  destruct (call_text_provider_cases providers key p prompt system w Hp)
    as (x & w1 & Heq & Hx).
  rewrite Hcall in Heq. by injection Heq as <- <-.
Qed.

Lemma call_vision_provider_served (providers : gmap string ProviderConfig) key p
    image_base64 prompt system w r w' :
  providers !! key = Some p ->
  _call_vision_provider post providers key image_base64 prompt system w = (Ok r, w') ->
  provider_of r = Some key.
Proof.
  intros Hp Hcall.
  destruct (call_vision_provider_cases providers key p image_base64 prompt system w Hp)
    as (x & w1 & Heq & Hx).
  rewrite Hcall in Heq. by injection Heq as <- <-.
Qed.

(** A success dict comes from a 2xx reply whose body holds the text at the
    provider's path; the one exception is the HuggingFace adapter, which
    answers an object without [generated_text] with the empty text. *)
Lemma call_text_provider_success (providers : gmap string ProviderConfig) key p
    prompt system w text served mdl w' :
  providers !! key = Some p ->
  _call_text_provider post providers key prompt system w
  = (Ok (Success text served mdl), w') ->
  ∃ req reply data,
    post w req = (PostResponse reply, w') ∧
    is_success (status_code reply) = true ∧ body reply = Some data ∧
    (text_field_of key data = Some text ∨
     (key = "huggingface" ∧ is_object data = true ∧
      huggingface_text_field data = None ∧ text = JStr "")).
Proof.
  intros Hp. unfold _call_text_provider. rewrite Hp. intros H.
  apply contain_success in H. revert H. unfold text_field_of.
  destruct (String.eqb_spec key "opencode_zen") as [->|_].
  { intros [= H]. apply adapter_shape in H as (reply & data & t & ? & ? & ? & Hr & [= <- _ _]).
    eexists _, reply, data. split_and!; try done. left. by apply chat_content_ok. }
  destruct (String.eqb_spec key "mistral") as [->|_].
  { intros [= H]. apply adapter_shape in H as (reply & data & t & ? & ? & ? & Hr & [= <- _ _]).
    eexists _, reply, data. split_and!; try done. left. by apply chat_content_ok. }
  destruct (String.eqb_spec key "groq") as [->|_].
  { intros [= H]. apply adapter_shape in H as (reply & data & t & ? & ? & ? & Hr & [= <- _ _]).
    eexists _, reply, data. split_and!; try done. left. by apply chat_content_ok. }
  destruct (String.eqb_spec key "huggingface") as [->|_]; [|done].
  intros [= H]. apply adapter_shape in H as (reply & data & t & ? & ? & ? & Hr & [= <- _ _]).
  eexists _, reply, data. split_and!; try done. simpl.
  destruct (huggingface_text_ok _ _ Hr) as [?|(? & ? & ?)]; auto.
Qed.

Lemma call_vision_provider_success (providers : gmap string ProviderConfig) key p
    image_base64 prompt system w text served mdl w' :
  providers !! key = Some p ->
  _call_vision_provider post providers key image_base64 prompt system w
  = (Ok (Success text served mdl), w') ->
  ∃ req reply data,
    post w req = (PostResponse reply, w') ∧
    is_success (status_code reply) = true ∧ body reply = Some data ∧
    vision_field_of key data = Some text.
Proof.
  intros Hp. unfold _call_vision_provider. rewrite Hp. intros H.
  apply contain_success in H. revert H. unfold vision_field_of.
  destruct (String.eqb_spec key "gemini") as [->|_].
  { intros [= H]. apply adapter_shape in H as (reply & data & t & ? & ? & ? & Hr & [= <- _ _]).
    eexists _, reply, data. split_and!; try done. by apply gemini_text_ok. }
  destruct (String.eqb_spec key "groq") as [->|_]; [|done].
  intros [= H]. apply adapter_shape in H as (reply & data & t & ? & ? & ? & Hr & [= <- _ _]).
  eexists _, reply, data. split_and!; try done. by apply chat_content_ok.
Qed.
End Calls.

(** ** Fault containment in the adapters *)





(** ** The sweep *)

Section SweepFacts.
Context {world : Type}.
Variable gate : string -> bool.
Variable call_provider : string -> world -> res result * world.
Variable exhausted : result.

Lemma sweep_fruitless (providers : gmap string ProviderConfig) order w w' :
  fruitless gate call_provider order w w' ->
  sweep gate call_provider exhausted providers order w = (Ok exhausted, providers, w').
Proof.
  induction 1 as [w|key rest w w' Hgate _ IH|key rest w r w1 w' Hgate Hcall Hfail _ IH];
    simpl.
  - done.
  - by rewrite Hgate.
  - by rewrite Hgate, Hcall, Hfail.
Qed.

Lemma sweep_first_success (providers : gmap string ProviderConfig)
    pre key rest p r w w1 w2 :
  fruitless gate call_provider pre w w1 ->
  gate key = true ->
  call_provider key w1 = (Ok r, w2) ->
  success r = true ->
  providers !! key = Some p ->
  sweep gate call_provider exhausted providers (pre ++ key :: rest) w
  = (Ok r, <[key := record_use p]> providers, w2).
Proof.
  intros Hpre Hgate Hcall Hok Hp.
  induction Hpre as [w|k ks w w' Hg _ IH|k ks w r' w1' w' Hg Hc Hf _ IH]; simpl.
  - by rewrite Hgate, Hcall, Hok, Hp.
  - rewrite Hg. simpl. by apply IH.
  - rewrite Hg, Hc, Hf. simpl. by apply IH.
Qed.

Lemma sweep_outcome (providers : gmap string ProviderConfig) order w :
  (∀ key, gate key = true -> is_Some (providers !! key)) ->
  ∃ x providers' w',
    sweep gate call_provider exhausted providers order w = (x, providers', w') ∧
    ((x = Ok exhausted ∧ providers' = providers ∧
      fruitless gate call_provider order w w') ∨
     (∃ r pre key rest p w1,
        x = Ok r ∧
        order = (pre ++ key :: rest)%list ∧
        fruitless gate call_provider pre w w1 ∧
        gate key = true ∧
        call_provider key w1 = (Ok r, w') ∧
        success r = true ∧
        providers !! key = Some p ∧
        providers' = <[key := record_use p]> providers) ∨
     (∃ e pre key rest w1,
        x = Raise e ∧
        providers' = providers ∧
        order = (pre ++ key :: rest)%list ∧
        fruitless gate call_provider pre w w1 ∧
        gate key = true ∧
        call_provider key w1 = (Raise e, w'))).
Proof.
  intros Hknown. revert w.
  induction order as [|key rest IH]; intros w; simpl.
  - eexists _, _, _. split; [done|]. left. split_and!; try done. constructor.
  - assert (∀ w1,
              (∀ pre w2, fruitless gate call_provider pre w1 w2 ->
                         fruitless gate call_provider (key :: pre) w w2) ->
              ∃ x providers' w',
                sweep gate call_provider exhausted providers rest w1 = (x, providers', w') ∧
                ((x = Ok exhausted ∧ providers' = providers ∧
                  fruitless gate call_provider (key :: rest) w w') ∨
                 (∃ r pre k rest' p w2,
                    x = Ok r ∧ (key :: rest = pre ++ k :: rest')%list ∧
                    fruitless gate call_provider pre w w2 ∧ gate k = true ∧
                    call_provider k w2 = (Ok r, w') ∧ success r = true ∧
                    providers !! k = Some p ∧
                    providers' = <[k := record_use p]> providers) ∨
                 (∃ e pre k rest' w2,
                    x = Raise e ∧ providers' = providers ∧
                    (key :: rest = pre ++ k :: rest')%list ∧
                    fruitless gate call_provider pre w w2 ∧ gate k = true ∧
                    call_provider k w2 = (Raise e, w')))) as Hnext.
    { intros w1 Hstep.
      destruct (IH w1) as (x & providers' & w' & Hsweep & Hcases).
      exists x, providers', w'. split; [done|].
      destruct Hcases as [(-> & -> & Hall)
                         |[(r & pre & k & rest' & p & w2 & -> & -> & Hpre & ? & ? & ? & ? & ?)
                          |(e & pre & k & rest' & w2 & -> & -> & -> & Hpre & ? & ?)]].
      - left. split_and!; try done. by apply Hstep.
      - right. left. exists r, (key :: pre), k, rest', p, w2. split_and!; try done.
        by apply Hstep.
      - right. right. exists e, (key :: pre), k, rest', w2. split_and!; try done.
        by apply Hstep. }
    destruct (gate key) eqn:Hgate; simpl.
    + destruct (call_provider key w) as [[r|e] w1] eqn:Hcall.
      * destruct (success r) eqn:Hok.
        -- destruct (Hknown key Hgate) as [p Hp]. rewrite Hp.
           eexists _, _, _. split; [done|]. right. left.
           exists r, [], key, rest, p, w. split_and!; try done. constructor.
        -- apply Hnext. intros pre w2 Hpre. by eapply fruitless_fail.
      * eexists _, _, _. split; [done|]. right. right.
        exists e, [], key, rest, w. split_and!; try done. constructor.
    + apply Hnext. intros pre w2 Hpre. by apply fruitless_skip.
Qed.
End SweepFacts.

Lemma fruitless_ext {world : Type} (gate1 gate2 : string -> bool)
    (call_provider : string -> world -> res result * world) order w w' :
  (∀ key, key ∈ order -> gate1 key = gate2 key) ->
  fruitless gate1 call_provider order w w' ->
  fruitless gate2 call_provider order w w'.
Proof.
  intros Hsame H.
  induction H as [w|key rest w w' Hgate _ IH|key rest w r w1 w' Hgate Hcall Hfail _ IH].
  - constructor.
  - apply fruitless_skip.
    + rewrite <- Hsame; [done | apply list_elem_of_here].
    + apply IH. intros k Hk. apply Hsame. by apply list_elem_of_further.
  - eapply fruitless_fail; try done.
    + rewrite <- Hsame; [done | apply list_elem_of_here].
    + apply IH. intros k Hk. apply Hsame. by apply list_elem_of_further.
Qed.

Lemma can_use_known (providers : gmap string ProviderConfig) key :
  _can_use_provider providers key = true -> is_Some (providers !! key).
Proof. intros H. apply can_use_true in H as (p & -> & _). by exists p. Qed.

Lemma vision_gate_can_use (providers : gmap string ProviderConfig) key :
  vision_gate providers key = true -> _can_use_provider providers key = true.
Proof.
  unfold vision_gate. destruct (providers !! key); [|done].
  by intros [_ ?]%andb_true_iff.
Qed.

Lemma vision_gate_capable (providers : gmap string ProviderConfig) key :
  vision_order_capable providers -> key ∈ vision_providers ->
  vision_gate providers key = _can_use_provider providers key.
Proof.
  intros Hcap Hkey. unfold vision_gate.
  destruct (providers !! key) as [p|] eqn:Hp.
  - by rewrite (Hcap key p Hkey Hp).
  - unfold _can_use_provider. by rewrite Hp.
Qed.

Section Loops.
Context {world : Type}.
Variable post : world -> request -> post_outcome * world.

Lemma route_text_loop_sweep (providers : gmap string ProviderConfig) prompt system order w :
  route_text_loop post providers prompt system order w
  = sweep (_can_use_provider providers)
      (fun key => _call_text_provider post providers key prompt system)
      exhausted_text providers order w.
Proof.
  revert w. induction order as [|key rest IH]; intros w; simpl; [done|].
  destruct (_can_use_provider providers key); simpl; [|done].
  destruct (_call_text_provider post providers key prompt system w) as [[r|e] w1]; [|done].
  destruct (success r); [done|]. apply IH.
Qed.

Lemma route_vision_loop_sweep (providers : gmap string ProviderConfig)
    image_base64 prompt system order w :
  route_vision_loop post providers image_base64 prompt system order w
  = sweep (vision_gate providers)
      (fun key => _call_vision_provider post providers key image_base64 prompt system)
      exhausted_vision providers order w.
Proof.
  revert w. induction order as [|key rest IH]; intros w; simpl; [done|].
  unfold vision_gate at 1.
  destruct (providers !! key) as [p|] eqn:Hp; simpl; [|done].
  destruct (vision_capable p); simpl; [|done].
  destruct (_can_use_provider providers key); simpl; [|done].
  destruct (_call_vision_provider post providers key image_base64 prompt system w)
    as [[r|e] w1]; [|done].
  destruct (success r); [done|]. apply IH.
Qed.
End Loops.

(** ** Routing calls *)

Lemma reset_keeps_type now p : provider_type (reset_if_new_day now p) = provider_type p.
Proof. unfold reset_if_new_day. by destruct (date (last_reset p) <? date now). Qed.

Lemma check_daily_reset_capable now (providers : gmap string ProviderConfig) :
  vision_order_capable providers -> vision_order_capable (_check_daily_reset now providers).
Proof.
  intros Hcap key p Hkey. rewrite lookup_check_daily_reset.
  destruct (providers !! key) as [q|] eqn:Hq; simpl; [|done]. intros [= <-].
  unfold vision_capable. rewrite reset_keeps_type. by apply (Hcap key q).
Qed.

Lemma init_vision_order_capable getenv t_zen t_gemini t_mistral t_groq t_hf now :
  vision_order_capable (__init__ getenv t_zen t_gemini t_mistral t_groq t_hf now).
Proof.
  apply check_daily_reset_capable. intros key p Hkey.
  unfold vision_providers in Hkey.
  apply elem_of_cons in Hkey as [->|Hkey];
    [|apply elem_of_cons in Hkey as [->|Hkey]; [|by apply elem_of_nil in Hkey]].
  - vm_compute. by intros [= <-].
  - vm_compute. by intros [= <-].
Qed.

Section Routing.
Context {world : Type}.
Variable post : world -> request -> post_outcome * world.

Lemma route_text_outcome now (providers : gmap string ProviderConfig) prompt system w :
  ∃ x providers' w',
    route_text post now providers prompt system w = (x, providers', w') ∧
    ((x = Ok exhausted_text ∧ providers' = _check_daily_reset now providers ∧
      fruitless (_can_use_provider (_check_daily_reset now providers))
        (fun key => _call_text_provider post (_check_daily_reset now providers)
                      key prompt system)
        text_providers w w') ∨
     (∃ r pre key rest p w1,
        x = Ok r ∧
        text_providers = (pre ++ key :: rest)%list ∧
        fruitless (_can_use_provider (_check_daily_reset now providers))
          (fun key => _call_text_provider post (_check_daily_reset now providers)
                        key prompt system)
          pre w w1 ∧
        _can_use_provider (_check_daily_reset now providers) key = true ∧
        _call_text_provider post (_check_daily_reset now providers) key prompt system w1
        = (Ok r, w') ∧
        success r = true ∧
        _check_daily_reset now providers !! key = Some p ∧
        providers' = <[key := record_use p]> (_check_daily_reset now providers)) ∨
     (∃ e w1 req,
        x = Raise e ∧
        providers' = _check_daily_reset now providers ∧
        is_exception e = false ∧
        post w1 req = (PostRaises e, w'))).
Proof.
  unfold route_text. rewrite route_text_loop_sweep.
  destruct (sweep_outcome (_can_use_provider (_check_daily_reset now providers))
              (fun key => _call_text_provider post (_check_daily_reset now providers)
                            key prompt system)
              exhausted_text (_check_daily_reset now providers) text_providers w
              (can_use_known _))
    as (x & providers' & w' & -> & Hcases).
  exists x, providers', w'. split; [done|].
  destruct Hcases as [?|[?|(e & pre & key & rest & w1 & -> & -> & _ & _ & Hgate & Hcall)]];
    [by left | by right; left |].
  right. right. destruct (can_use_known _ _ Hgate) as [p Hp].
  destruct (call_text_provider_cases post _ key p prompt system w1 Hp)
    as (y & w2 & Heq & Hy).
  rewrite Hcall in Heq. injection Heq as <- <-. destruct Hy as (He & req & Hpost).
  by exists e, w1, req.
Qed.

Lemma route_vision_outcome now (providers : gmap string ProviderConfig)
    image_base64 prompt system w :
  ∃ x providers' w',
    route_vision post now providers image_base64 prompt system w = (x, providers', w') ∧
    ((x = Ok exhausted_vision ∧ providers' = _check_daily_reset now providers ∧
      fruitless (vision_gate (_check_daily_reset now providers))
        (fun key => _call_vision_provider post (_check_daily_reset now providers)
                      key image_base64 prompt system)
        vision_providers w w') ∨
     (∃ r pre key rest p w1,
        x = Ok r ∧
        vision_providers = (pre ++ key :: rest)%list ∧
        fruitless (vision_gate (_check_daily_reset now providers))
          (fun key => _call_vision_provider post (_check_daily_reset now providers)
                        key image_base64 prompt system)
          pre w w1 ∧
        vision_gate (_check_daily_reset now providers) key = true ∧
        _call_vision_provider post (_check_daily_reset now providers) key
          image_base64 prompt system w1
        = (Ok r, w') ∧
        success r = true ∧
        _check_daily_reset now providers !! key = Some p ∧
        providers' = <[key := record_use p]> (_check_daily_reset now providers)) ∨
     (∃ e w1 req,
        x = Raise e ∧
        providers' = _check_daily_reset now providers ∧
        is_exception e = false ∧
        post w1 req = (PostRaises e, w'))).
Proof.
  unfold route_vision. rewrite route_vision_loop_sweep.
  destruct (sweep_outcome (vision_gate (_check_daily_reset now providers))
              (fun key => _call_vision_provider post (_check_daily_reset now providers)
                            key image_base64 prompt system)
              exhausted_vision (_check_daily_reset now providers) vision_providers w)
    as (x & providers' & w' & -> & Hcases).
  { intros key Hgate. by apply can_use_known, vision_gate_can_use. }
  exists x, providers', w'. split; [done|].
  destruct Hcases as [?|[?|(e & pre & key & rest & w1 & -> & -> & _ & _ & Hgate & Hcall)]];
    [by left | by right; left |].
  right. right.
  destruct (can_use_known _ _ (vision_gate_can_use _ _ Hgate)) as [p Hp].
  destruct (call_vision_provider_cases post _ key p image_base64 prompt system w1 Hp)
    as (y & w2 & Heq & Hy).
  rewrite Hcall in Heq. injection Heq as <- <-. destruct Hy as (He & req & Hpost).
  by exists e, w1, req.
Qed.
End Routing.

(** C1: in a routing call, if every candidate before [key] in the class order
    is inadmissible or fails, and [key] is admissible and its adapter reports
    success [r], the call returns [r], which names [key] as provider; the
    registry is the reset registry with one use of [key] recorded, and the
    environment is the one the call of [key] left: no later candidate is
    called.  For [route_vision] this is stated twice: on a registry whose
    vision candidates are vision-capable, as the data model requires, with
    admissibility alone; and on any registry, with the capability filter of
    [route_vision] counted into the gate. *)
Theorem first_admissible_success_wins :
  ∀ (world : Type) (post : world -> request -> post_outcome * world)
    now (providers : gmap string ProviderConfig) prompt system,
    let current := _check_daily_reset now providers in
    (∀ w pre key rest r w1 w2,
       text_providers = (pre ++ key :: rest)%list ->
       fruitless (_can_use_provider current)
         (fun k => _call_text_provider post current k prompt system) pre w w1 ->
       _can_use_provider current key = true ->
       _call_text_provider post current key prompt system w1 = (Ok r, w2) ->
       success r = true ->
       ∃ p, current !! key = Some p ∧
            route_text post now providers prompt system w
            = (Ok r, <[key := record_use p]> current, w2) ∧
            provider_of r = Some key) ∧
    (∀ image_base64 w pre key rest r w1 w2,
       vision_order_capable providers ->
       vision_providers = (pre ++ key :: rest)%list ->
       fruitless (_can_use_provider current)
         (fun k => _call_vision_provider post current k image_base64 prompt system)
         pre w w1 ->
       _can_use_provider current key = true ->
       _call_vision_provider post current key image_base64 prompt system w1 = (Ok r, w2) ->
       success r = true ->
       ∃ p, current !! key = Some p ∧
            route_vision post now providers image_base64 prompt system w
            = (Ok r, <[key := record_use p]> current, w2) ∧
            provider_of r = Some key) ∧
    (∀ image_base64 w pre key rest r w1 w2,
       vision_providers = (pre ++ key :: rest)%list ->
       fruitless (vision_gate current)
         (fun k => _call_vision_provider post current k image_base64 prompt system)
         pre w w1 ->
       vision_gate current key = true ->
       _call_vision_provider post current key image_base64 prompt system w1 = (Ok r, w2) ->
       success r = true ->
       ∃ p, current !! key = Some p ∧
            route_vision post now providers image_base64 prompt system w
            = (Ok r, <[key := record_use p]> current, w2) ∧
            provider_of r = Some key).
Proof.
  intros world post now providers prompt system current.
  assert (∀ image_base64 w pre key rest r w1 w2,
            vision_providers = (pre ++ key :: rest)%list ->
            fruitless (vision_gate current)
              (fun k => _call_vision_provider post current k image_base64 prompt system)
              pre w w1 ->
            vision_gate current key = true ->
            _call_vision_provider post current key image_base64 prompt system w1
            = (Ok r, w2) ->
            success r = true ->
            ∃ p, current !! key = Some p ∧
                 route_vision post now providers image_base64 prompt system w
                 = (Ok r, <[key := record_use p]> current, w2) ∧
                 provider_of r = Some key) as Hgated.
  { intros image_base64 w pre key rest r w1 w2 Horder Hpre Hgate Hcall Hok.
    destruct (can_use_known _ _ (vision_gate_can_use _ _ Hgate)) as [p Hp].
    exists p. split_and!; [done| |].
    - unfold route_vision. fold current. rewrite route_vision_loop_sweep, Horder.
      by apply sweep_first_success with w1.
    - by eapply call_vision_provider_served. }
  split_and!.
  - intros w pre key rest r w1 w2 Horder Hpre Hgate Hcall Hok.
    destruct (can_use_known _ _ Hgate) as [p Hp]. exists p. split_and!; [done| |].
    + unfold route_text. fold current. rewrite route_text_loop_sweep, Horder.
      by apply sweep_first_success with w1.
    + by eapply call_text_provider_served.
  - intros image_base64 w pre key rest r w1 w2 Hcap Horder Hpre Hgate Hcall Hok.
    assert (vision_order_capable current) as Hcap'
      by (by apply check_daily_reset_capable).
    apply (Hgated image_base64 w pre key rest r w1 w2); try done.
    + eapply fruitless_ext; [|exact Hpre].
      intros k Hk. symmetry. apply vision_gate_capable; [done|].
      rewrite Horder. apply elem_of_app. by left.
    + rewrite vision_gate_capable; [done..|].
      rewrite Horder. apply elem_of_app. right. apply list_elem_of_here.
  - exact Hgated.
Qed.

(** C5: when every candidate of the class order is inadmissible or fails,
    the call returns the aggregate failure, with no provider attached, and
    leaves the registry as the reset left it.  For [route_vision] this is
    stated twice: under the data model's condition on the vision order, with
    admissibility alone; and on any registry, with the capability filter
    counted into the gate. *)
Theorem all_fruitless_is_exhausted :
  ∀ (world : Type) (post : world -> request -> post_outcome * world)
    now (providers : gmap string ProviderConfig) prompt system,
    let current := _check_daily_reset now providers in
    (∀ w w',
       fruitless (_can_use_provider current)
         (fun k => _call_text_provider post current k prompt system)
         text_providers w w' ->
       route_text post now providers prompt system w
       = (Ok (Failure (Literal "All text providers failed or exhausted") None),
          current, w')) ∧
    (∀ image_base64 w w',
       vision_order_capable providers ->
       fruitless (_can_use_provider current)
         (fun k => _call_vision_provider post current k image_base64 prompt system)
         vision_providers w w' ->
       route_vision post now providers image_base64 prompt system w
       = (Ok (Failure (Literal "All vision providers failed or exhausted") None),
          current, w')) ∧
    (∀ image_base64 w w',
       fruitless (vision_gate current)
         (fun k => _call_vision_provider post current k image_base64 prompt system)
         vision_providers w w' ->
       route_vision post now providers image_base64 prompt system w
       = (Ok (Failure (Literal "All vision providers failed or exhausted") None),
          current, w')).
Proof.
  intros world post now providers prompt system current.
  assert (∀ image_base64 w w',
            fruitless (vision_gate current)
              (fun k => _call_vision_provider post current k image_base64 prompt system)
              vision_providers w w' ->
            route_vision post now providers image_base64 prompt system w
            = (Ok exhausted_vision, current, w')) as Hgated.
  { intros image_base64 w w' Hall. unfold route_vision. fold current.
    rewrite route_vision_loop_sweep. by apply sweep_fruitless. }
  split_and!.
  - intros w w' Hall. unfold route_text. fold current.
    rewrite route_text_loop_sweep. by apply sweep_fruitless.
  - intros image_base64 w w' Hcap Hall. apply Hgated.
    eapply fruitless_ext; [|exact Hall].
    intros k Hk. symmetry. apply vision_gate_capable; [|done].
    by apply check_daily_reset_capable.
  - exact Hgated.
Qed.

(** A task cancelled while it awaits the reply raises [CancelledError] at
    the [post]; [except Exception] does not catch it, and it leaves
    [route_text]. *)
Lemma cancellation_leaves_routing :
  ¬ (∀ (world : Type) (post : world -> request -> post_outcome * world)
       now (providers : gmap string ProviderConfig) prompt system w,
       ∃ r providers' w',
         route_text post now providers prompt system w = (Ok r, providers', w')).
Proof.
  intros H.
  destruct (H unit cancelling (day 10) two_candidates "hi" None tt)
    as (r & providers' & w' & Hroute).
  vm_compute in Hroute. discriminate.
Qed.

(** C7 (amended): whatever the registry and the inputs, a routing call
    returns a result dict whenever what the transport raises is an
    [Exception]; and a routing call raises nothing but what the transport
    raised and [except Exception] does not catch (a cancelled task, an
    interrupt), in which case no use has been recorded. *)
Theorem routing_raises_no_exception :
  ∀ (world : Type) (post : world -> request -> post_outcome * world)
    now (providers : gmap string ProviderConfig) image_base64 prompt system w,
    (only_exceptions post ->
     (∃ r providers' w',
        route_text post now providers prompt system w = (Ok r, providers', w')) ∧
     (∃ r providers' w',
        route_vision post now providers image_base64 prompt system w
        = (Ok r, providers', w'))) ∧
    (∀ e providers' w',
       route_text post now providers prompt system w = (Raise e, providers', w') ∨
       route_vision post now providers image_base64 prompt system w
       = (Raise e, providers', w') ->
       is_exception e = false ∧
       providers' = _check_daily_reset now providers ∧
       ∃ w1 req, post w1 req = (PostRaises e, w')).
Proof.
  intros world post now providers image_base64 prompt system w.
  destruct (route_text_outcome post now providers prompt system w)
    as (x & st & w1 & Htext & Htcases).
  destruct (route_vision_outcome post now providers image_base64 prompt system w)
    as (y & st' & w1' & Hvision & Hvcases).
  split.
  - intros Honly. split.
    + rewrite Htext.
      destruct Htcases as [(-> & _)|[(r & ? & ? & ? & ? & ? & -> & _)
                                    |(e & w2 & req & -> & _ & He & Hpost)]]; eauto.
      specialize (Honly w2 req e). rewrite Hpost in Honly.
      rewrite (Honly eq_refl) in He. discriminate.
    + rewrite Hvision.
      destruct Hvcases as [(-> & _)|[(r & ? & ? & ? & ? & ? & -> & _)
                                    |(e & w2 & req & -> & _ & He & Hpost)]]; eauto.
      specialize (Honly w2 req e). rewrite Hpost in Honly.
      rewrite (Honly eq_refl) in He. discriminate.
  - intros e providers' w' [Hraise|Hraise].
    + rewrite Htext in Hraise. injection Hraise as -> -> ->.
      destruct Htcases as [([=] & _)|[(r & ? & ? & ? & ? & ? & [=] & _)
                                     |(e' & w2 & req & [= <-] & -> & He & Hpost)]].
      split_and!; eauto.
    + rewrite Hvision in Hraise. injection Hraise as -> -> ->.
      destruct Hvcases as [([=] & _)|[(r & ? & ? & ? & ? & ? & [=] & _)
                                     |(e' & w2 & req & [= <-] & -> & He & Hpost)]].
      split_and!; eauto.
Qed.

Lemma routing_raises_no_exception_witness :
  (∃ r providers' w',
     route_text (always server_error) (day 10) two_candidates "hi" None tt
     = (Ok r, providers', w')) ∧
  is_exception CancelledError = false ∧
  (∃ w1 req, cancelling w1 req = (PostRaises CancelledError, tt)).
Proof.
  destruct (routing_raises_no_exception unit (always server_error) (day 10) two_candidates
              "aGk=" "hi" None tt) as [Hreturns _].
  destruct (routing_raises_no_exception unit cancelling (day 10) two_candidates
              "aGk=" "hi" None tt) as [_ Hraised].
  split.
  - apply Hreturns. intros w req e. simpl. discriminate.
  - destruct (Hraised CancelledError (_check_daily_reset (day 10) two_candidates) tt)
      as (He & _ & Hpost); [left; reflexivity|].
    split; [exact He | exact Hpost].
Defined.

Lemma first_admissible_success_wins_witness :
  fst (fst (route_text scripted (day 10) sample_router "hi" None
              ([server_error; ok_reply (chat_reply "yo")], [])))
  = Ok (Success (JStr "yo") "groq" (Some "llama-3.1-70b-versatile")) ∧
  length (snd (snd (route_text scripted (day 10) sample_router "hi" None
                      ([server_error; ok_reply (chat_reply "yo")], [])))) = 2%nat ∧
  fst (fst (route_vision scripted (day 10) sample_router "aGk=" "what is this" None
              ([server_error; ok_reply (chat_reply "a cat")], [])))
  = Ok (Success (JStr "a cat") "groq" (Some "llama-3.2-90b-vision-preview")).
Proof.
  destruct (first_admissible_success_wins _ scripted (day 10) sample_router "hi" None)
    as [Htext _].
  destruct (first_admissible_success_wins _ scripted (day 10) sample_router
              "what is this" None) as (_ & Hvision & _).
  split_and!.
  - edestruct (Htext ([server_error; ok_reply (chat_reply "yo")], [])
                 ["opencode_zen"; "mistral"] "groq" ["huggingface"])
      as (p & _ & -> & _);
      [ reflexivity
      | eapply fruitless_fail; [reflexivity | reflexivity | reflexivity |];
        apply fruitless_skip; [reflexivity | apply fruitless_nil]
      | reflexivity | reflexivity | reflexivity | reflexivity ].
  - edestruct (Htext ([server_error; ok_reply (chat_reply "yo")], [])
                 ["opencode_zen"; "mistral"] "groq" ["huggingface"])
      as (p & _ & -> & _);
      [ reflexivity
      | eapply fruitless_fail; [reflexivity | reflexivity | reflexivity |];
        apply fruitless_skip; [reflexivity | apply fruitless_nil]
      | reflexivity | reflexivity | reflexivity | reflexivity ].
  - edestruct (Hvision "aGk=" ([server_error; ok_reply (chat_reply "a cat")], [])
                 ["gemini"] "groq" [])
      as (p & _ & -> & _);
      [ apply init_vision_order_capable
      | reflexivity
      | eapply fruitless_fail;
          [reflexivity | reflexivity | reflexivity | apply fruitless_nil]
      | reflexivity | reflexivity | reflexivity | reflexivity ].
Defined.

Lemma all_fruitless_is_exhausted_witness :
  fst (route_text scripted (day 10) sample_router "hi" None ([], []))
  = (Ok exhausted_text, _check_daily_reset (day 10) sample_router) ∧
  fst (route_vision scripted (day 10) sample_router "aGk=" "what is this" None
         ([server_error; ok_reply (JObj [])], []))
  = (Ok exhausted_vision, _check_daily_reset (day 10) sample_router).
Proof.
  destruct (all_fruitless_is_exhausted _ scripted (day 10) sample_router "hi" None)
    as [Htext _].
  destruct (all_fruitless_is_exhausted _ scripted (day 10) sample_router
              "what is this" None) as (_ & Hvision & _).
  split.
  - erewrite Htext; [reflexivity|].
    eapply fruitless_fail; [reflexivity | reflexivity | reflexivity |].
    apply fruitless_skip; [reflexivity|].
    eapply fruitless_fail; [reflexivity | reflexivity | reflexivity |].
    eapply fruitless_fail; [reflexivity | reflexivity | reflexivity | apply fruitless_nil].
  - erewrite Hvision; [reflexivity | apply init_vision_order_capable |].
    eapply fruitless_fail; [reflexivity | reflexivity | reflexivity |].
    eapply fruitless_fail; [reflexivity | reflexivity | reflexivity | apply fruitless_nil].
Defined.

(** ** Quota consumption *)

Lemma served_not_before (order pre rest : list string) key :
  NoDup order -> order = (pre ++ key :: rest)%list -> key ∉ pre.
Proof.
  intros Hnodup ->. apply NoDup_app in Hnodup as (_ & Hdisjoint & _).
  intros Hin. apply (Hdisjoint key Hin). apply list_elem_of_here.
Qed.

Lemma text_providers_NoDup : NoDup text_providers.
Proof. apply (bool_decide_unpack _). by vm_compute. Qed.

Lemma vision_providers_NoDup : NoDup vision_providers.
Proof. apply (bool_decide_unpack _). by vm_compute. Qed.

(** C2: a routing call that fails leaves every counter as the lazy reset
    left it.  A call that succeeds adds exactly 1 to the counter of the
    provider named in its result, whose adapter reported the success; every
    other provider, in particular each candidate skipped or failed before it
    in the order, is as the lazy reset left it.  A call that is left by what
    the transport raised past [except Exception] has recorded no use
    either. *)
Theorem quota_charged_only_on_success :
  ∀ (world : Type) (post : world -> request -> post_outcome * world)
    now (providers : gmap string ProviderConfig) image_base64 prompt system w,
    let current := _check_daily_reset now providers in
    (∃ x providers' w',
       route_text post now providers prompt system w = (x, providers', w') ∧
       match x with
       | Ok r =>
           if success r
           then ∃ key p pre rest,
                  provider_of r = Some key ∧
                  current !! key = Some p ∧
                  providers' = <[key := record_use p]> current ∧
                  consumed providers' key = Some (requests_today p + 1) ∧
                  (∀ other, other ≠ key -> providers' !! other = current !! other) ∧
                  text_providers = (pre ++ key :: rest)%list ∧
                  (∀ other, other ∈ pre -> providers' !! other = current !! other)
           else providers' = current
       | Raise e =>
           is_exception e = false ∧ providers' = current ∧
           ∃ w1 req, post w1 req = (PostRaises e, w')
       end) ∧
    (∃ x providers' w',
       route_vision post now providers image_base64 prompt system w
       = (x, providers', w') ∧
       match x with
       | Ok r =>
           if success r
           then ∃ key p pre rest,
                  provider_of r = Some key ∧
                  current !! key = Some p ∧
                  providers' = <[key := record_use p]> current ∧
                  consumed providers' key = Some (requests_today p + 1) ∧
                  (∀ other, other ≠ key -> providers' !! other = current !! other) ∧
                  vision_providers = (pre ++ key :: rest)%list ∧
                  (∀ other, other ∈ pre -> providers' !! other = current !! other)
           else providers' = current
       | Raise e =>
           is_exception e = false ∧ providers' = current ∧
           ∃ w1 req, post w1 req = (PostRaises e, w')
       end).
Proof.
  intros world post now providers image_base64 prompt system w current. split.
  - destruct (route_text_outcome post now providers prompt system w)
      as (x & providers' & w' & Hroute & Hcases).
    exists x, providers', w'. split; [done|]. fold current in Hcases.
    destruct Hcases
      as [(-> & -> & _)
         |[(r & pre & key & rest & p & w1 & -> & Horder & _ & _ & Hcall & Hok & Hp & ->)
          |(e & w1 & req & -> & -> & He & Hpost)]];
      [done| |by eauto].
    rewrite Hok. exists key, p, pre, rest.
    split_and!; try done.
    + by eapply call_text_provider_served.
    + unfold consumed. by rewrite lookup_insert_eq.
    + intros other Hne. by rewrite lookup_insert_ne.
    + intros other Hin. rewrite lookup_insert_ne; [done|]. intros ->.
      by apply (served_not_before _ _ _ _ text_providers_NoDup Horder).
  - destruct (route_vision_outcome post now providers image_base64 prompt system w)
      as (x & providers' & w' & Hroute & Hcases).
    exists x, providers', w'. split; [done|]. fold current in Hcases.
    destruct Hcases
      as [(-> & -> & _)
         |[(r & pre & key & rest & p & w1 & -> & Horder & _ & _ & Hcall & Hok & Hp & ->)
          |(e & w1 & req & -> & -> & He & Hpost)]];
      [done| |by eauto].
    rewrite Hok. exists key, p, pre, rest.
    split_and!; try done.
    + by eapply call_vision_provider_served.
    + unfold consumed. by rewrite lookup_insert_eq.
    + intros other Hne. by rewrite lookup_insert_ne.
    + intros other Hin. rewrite lookup_insert_ne; [done|]. intros ->.
      by apply (served_not_before _ _ _ _ vision_providers_NoDup Horder).
Qed.

(** ** Counters stay within their limit *)

Lemma within_limit_reset now key limit (providers : gmap string ProviderConfig) :
  0 <= limit -> within_limit key limit providers ->
  within_limit key limit (_check_daily_reset now providers).
Proof.
  intros Hpos (p & Hp & Hlimit & Hle). exists (reset_if_new_day now p).
  rewrite lookup_check_daily_reset, Hp. split; [done|].
  destruct (reset_if_new_day_cases now p) as [[_ ->]|[_ ->]]; simpl; auto.
Qed.

Lemma within_limit_charge key limit (providers : gmap string ProviderConfig) served p :
  limit ≠ 0 -> within_limit key limit providers ->
  _can_use_provider providers served = true ->
  providers !! served = Some p ->
  within_limit key limit (<[served := record_use p]> providers).
Proof.
  intros Hnz (q & Hq & Hlimit & Hle) Hgate Hp.
  destruct (decide (served = key)) as [->|Hne].
  - assert (q = p) as -> by congruence.
    exists (record_use p). rewrite lookup_insert_eq. split_and!; [done..|].
    apply can_use_true in Hgate as (p' & Hp' & _ & Hroom).
    assert (p' = p) as -> by congruence. rewrite Hlimit in Hroom. simpl. lia.
  - exists q. by rewrite lookup_insert_ne.
Qed.

Section Sequences.
Context {world : Type}.
Variable post : world -> request -> post_outcome * world.

Lemma within_limit_perform c key limit (providers : gmap string ProviderConfig) w :
  0 < limit -> within_limit key limit providers ->
  within_limit key limit (fst (perform post c providers w)).
Proof.
  intros Hpos Hin.
  assert (within_limit key limit (_check_daily_reset (match c with
            | RouteText now _ _ | RouteVision now _ _ _
            | GetQuotaStatus now | GetRecommendedProvider now _ => now end) providers))
    as Hreset by (apply within_limit_reset; [lia|done]).
  destruct c as [now prompt system|now image_base64 prompt system|now|now task]; simpl.
  - destruct (route_text_outcome post now providers prompt system w)
      as (r & providers' & w' & -> & Hcases). simpl.
    destruct Hcases as [(_ & -> & _)
                         |[(r' & pre & k & rest & p & w1 & _ & _ & _ & Hgate & _ & _ & Hp & ->)
                          |(e & w1 & req & _ & -> & _)]];
      [done| |done].
    apply within_limit_charge; try done. lia.
  - destruct (route_vision_outcome post now providers image_base64 prompt system w)
      as (r & providers' & w' & -> & Hcases). simpl.
    destruct Hcases as [(_ & -> & _)
                         |[(r' & pre & k & rest & p & w1 & _ & _ & _ & Hgate & _ & _ & Hp & ->)
                          |(e & w1 & req & _ & -> & _)]];
      [done| |done].
    apply within_limit_charge; try done; [lia|]. by apply vision_gate_can_use.
  - done.
  - done.
Qed.

Lemma within_limit_run calls key limit (providers : gmap string ProviderConfig) w :
  0 < limit -> within_limit key limit providers ->
  within_limit key limit (fst (run post calls providers w)).
Proof.
  intros Hpos. revert providers w.
  induction calls as [|c calls IH]; intros providers w Hin; simpl; [done|].
  pose proof (within_limit_perform c key limit providers w Hpos Hin) as Hstep.
  destruct (perform post c providers w) as [providers' w']. by apply IH.
Qed.
End Sequences.

(** C10: a provider with a limit L > 0 whose counter starts at or below L
    keeps its limit and a counter at or below L through every sequence of
    [route_text], [route_vision], [get_quota_status] and
    [get_recommended_provider] calls; [get_quota_status] then reports a
    remaining value that is a number and is not negative. *)
Theorem counter_never_exceeds_limit :
  ∀ (world : Type) (post : world -> request -> post_outcome * world)
    calls (providers : gmap string ProviderConfig) w key p limit,
    providers !! key = Some p ->
    rate_limit p = Some limit ->
    0 < limit ->
    requests_today p <= limit ->
    (∃ p', fst (run post calls providers w) !! key = Some p' ∧
           rate_limit p' = Some limit ∧ requests_today p' <= limit) ∧
    (∀ now, ∃ q n,
       fst (get_quota_status now (fst (run post calls providers w))) !! key = Some q ∧
       qs_remaining q = Remaining n ∧ 0 <= n).
Proof.
  intros world post calls providers w key p limit Hp Hlimit Hpos Hle.
  assert (within_limit key limit (fst (run post calls providers w))) as Hrun.
  { apply within_limit_run; [done|]. by exists p. }
  split; [exact Hrun|].
  intros now.
  destruct (within_limit_reset now key limit _ ltac:(lia) Hrun) as (q & Hq & Hql & Hqle).
  unfold get_quota_status. simpl. rewrite map_lookup_imap, Hq. simpl.
  eexists _, (limit - requests_today q). split; [done|]. simpl. rewrite Hql.
  destruct (Z.eqb_spec limit 0); [lia|]. simpl. split; [done|lia].
Qed.

Lemma counter_never_exceeds_limit_witness :
  (∃ p', fst (run (always (ok_reply (chat_reply "yo")))
                [RouteText (day 10) "a" None; RouteText (day 10) "b" None;
                 RouteText (day 10) "c" None] two_candidates tt) !! "opencode_zen"
         = Some p' ∧
         rate_limit p' = Some 1 ∧ requests_today p' <= 1) ∧
  (∀ now, ∃ q n,
     fst (get_quota_status now
            (fst (run (always (ok_reply (chat_reply "yo")))
                    [RouteText (day 10) "a" None; RouteText (day 10) "b" None;
                     RouteText (day 10) "c" None] two_candidates tt))) !! "opencode_zen"
     = Some q ∧
     qs_remaining q = Remaining n ∧ 0 <= n).
Proof.
  apply (counter_never_exceeds_limit unit (always (ok_reply (chat_reply "yo")))
           [RouteText (day 10) "a" None; RouteText (day 10) "b" None;
            RouteText (day 10) "c" None]
           two_candidates tt "opencode_zen" (sample (Some 1) 0 10) 1);
    [reflexivity | reflexivity | lia | simpl; lia].
Defined.

Example three_calls_scenario :
  let after := fst (run (always (ok_reply (chat_reply "yo")))
                      [RouteText (day 10) "a" None; RouteText (day 10) "b" None;
                       RouteText (day 10) "c" None] two_candidates tt) in
  consumed after "opencode_zen" = Some 1 ∧
  consumed after "mistral" = Some 2 ∧
  qs_remaining <$> fst (get_quota_status (day 10) after) !! "opencode_zen"
  = Some (Remaining 0) ∧
  qs_remaining <$> fst (get_quota_status (day 10) after) !! "mistral" = Some Unlimited.
Proof. vm_compute. done. Qed.

(** ** Priority *)

Lemma reset_set_priority now n p :
  reset_if_new_day now (set_priority n p) = set_priority n (reset_if_new_day now p).
Proof. unfold reset_if_new_day. simpl. by destruct (date (last_reset p) <? date now). Qed.

Lemma check_daily_reset_set_priority now n (providers : gmap string ProviderConfig) :
  _check_daily_reset now (set_priority n <$> providers)
  = set_priority n <$> _check_daily_reset now providers.
Proof.
  unfold _check_daily_reset. rewrite <- !map_fmap_compose.
  apply map_fmap_ext. intros key p _. apply reset_set_priority.
Qed.

Lemma can_use_set_priority n (providers : gmap string ProviderConfig) key :
  _can_use_provider (set_priority n <$> providers) key = _can_use_provider providers key.
Proof. unfold _can_use_provider. rewrite lookup_fmap. by destruct (providers !! key). Qed.

Lemma priority_of_reset now (providers : gmap string ProviderConfig) key :
  priority_of (_check_daily_reset now providers) key = priority_of providers key.
Proof.
  unfold priority_of. rewrite lookup_check_daily_reset.
  destruct (providers !! key) as [p|]; simpl; [|done].
  unfold reset_if_new_day. by destruct (date (last_reset p) <? date now).
Qed.

Lemma priority_of_charge (providers : gmap string ProviderConfig) served p key :
  providers !! served = Some p ->
  priority_of (<[served := record_use p]> providers) key = priority_of providers key.
Proof.
  intros Hp. unfold priority_of. destruct (decide (served = key)) as [->|Hne].
  - by rewrite lookup_insert_eq, Hp.
  - by rewrite lookup_insert_ne.
Qed.

Section Priority.
Context {world : Type}.
Variable post : world -> request -> post_outcome * world.

Lemma call_text_set_priority n (providers : gmap string ProviderConfig) key prompt system w :
  _call_text_provider post (set_priority n <$> providers) key prompt system w
  = _call_text_provider post providers key prompt system w.
Proof. unfold _call_text_provider. rewrite lookup_fmap. by destruct (providers !! key). Qed.

Lemma call_vision_set_priority n (providers : gmap string ProviderConfig) key
    image_base64 prompt system w :
  _call_vision_provider post (set_priority n <$> providers) key image_base64 prompt system w
  = _call_vision_provider post providers key image_base64 prompt system w.
Proof. unfold _call_vision_provider. rewrite lookup_fmap. by destruct (providers !! key). Qed.

Lemma route_text_loop_set_priority n (providers : gmap string ProviderConfig)
    prompt system order w :
  route_text_loop post (set_priority n <$> providers) prompt system order w
  = (let '(r, providers', w') := route_text_loop post providers prompt system order w in
     (r, set_priority n <$> providers', w')).
Proof.
  revert w. induction order as [|key rest IH]; intros w; simpl; [done|].
  rewrite can_use_set_priority, call_text_set_priority.
  destruct (_can_use_provider providers key); simpl; [|apply IH].
  destruct (_call_text_provider post providers key prompt system w) as [[r|e] w1]; [|done].
  destruct (success r); [|apply IH].
  rewrite lookup_fmap. destruct (providers !! key) as [p|]; simpl; [|done].
  by rewrite fmap_insert.
Qed.

Lemma route_vision_loop_set_priority n (providers : gmap string ProviderConfig)
    image_base64 prompt system order w :
  route_vision_loop post (set_priority n <$> providers) image_base64 prompt system order w
  = (let '(r, providers', w') :=
       route_vision_loop post providers image_base64 prompt system order w in
     (r, set_priority n <$> providers', w')).
Proof.
  revert w. induction order as [|key rest IH]; intros w; simpl; [done|].
  rewrite can_use_set_priority, call_vision_set_priority, lookup_fmap.
  destruct (providers !! key) as [p|]; simpl; [|apply IH].
  change (vision_capable (set_priority n p)) with (vision_capable p).
  destruct (vision_capable p); simpl; [|apply IH].
  destruct (_can_use_provider providers key); simpl; [|apply IH].
  destruct (_call_vision_provider post providers key image_base64 prompt system w)
    as [[r|e] w1]; [|done].
  destruct (success r); [|apply IH].
  by rewrite fmap_insert.
Qed.

Lemma recommend_loop_set_priority n (providers : gmap string ProviderConfig) task order :
  recommend_loop (set_priority n <$> providers) task order
  = recommend_loop providers task order.
Proof.
  induction order as [|key rest IH]; simpl; [done|].
  rewrite can_use_set_priority, lookup_fmap, IH.
  by destruct (providers !! key).
Qed.

Lemma quota_status_set_priority now n (providers : gmap string ProviderConfig) :
  fst (get_quota_status now (set_priority n <$> providers))
  = fst (get_quota_status now providers).
Proof.
  unfold get_quota_status. simpl. rewrite check_daily_reset_set_priority.
  apply map_eq. intros key. rewrite !map_lookup_imap, lookup_fmap.
  destruct (_check_daily_reset now providers !! key) as [p|]; simpl; [|done].
  unfold quota_entry. by rewrite can_use_set_priority.
Qed.

Lemma route_text_priority_of now (providers : gmap string ProviderConfig)
    prompt system w key :
  priority_of (snd (fst (route_text post now providers prompt system w))) key
  = priority_of providers key.
Proof.
  destruct (route_text_outcome post now providers prompt system w)
    as (r & providers' & w' & -> & Hcases). simpl.
  destruct Hcases as [(_ & -> & _)
                     |[(r' & pre & k & rest & p & w1 & _ & _ & _ & _ & _ & _ & Hp & ->)
                      |(e & w1 & req & _ & -> & _)]].
  - apply priority_of_reset.
  - rewrite (priority_of_charge _ _ _ _ Hp). apply priority_of_reset.
  - apply priority_of_reset.
Qed.

Lemma route_vision_priority_of now (providers : gmap string ProviderConfig)
    image_base64 prompt system w key :
  priority_of (snd (fst (route_vision post now providers image_base64 prompt system w))) key
  = priority_of providers key.
Proof.
  destruct (route_vision_outcome post now providers image_base64 prompt system w)
    as (r & providers' & w' & -> & Hcases). simpl.
  destruct Hcases as [(_ & -> & _)
                     |[(r' & pre & k & rest & p & w1 & _ & _ & _ & _ & _ & _ & Hp & ->)
                      |(e & w1 & req & _ & -> & _)]].
  - apply priority_of_reset.
  - rewrite (priority_of_charge _ _ _ _ Hp). apply priority_of_reset.
  - apply priority_of_reset.
Qed.
End Priority.

Lemma route_text_set_priority {world : Type}
    (post : world -> request -> post_outcome * world)
    n now (providers : gmap string ProviderConfig) prompt system w :
  route_text post now (set_priority n <$> providers) prompt system w
  = (let '(r, providers', w') := route_text post now providers prompt system w in
     (r, set_priority n <$> providers', w')).
Proof.
  unfold route_text. rewrite check_daily_reset_set_priority.
  apply route_text_loop_set_priority.
Qed.

Lemma route_vision_set_priority {world : Type}
    (post : world -> request -> post_outcome * world)
    n now (providers : gmap string ProviderConfig) image_base64 prompt system w :
  route_vision post now (set_priority n <$> providers) image_base64 prompt system w
  = (let '(r, providers', w') :=
       route_vision post now providers image_base64 prompt system w in
     (r, set_priority n <$> providers', w')).
Proof.
  unfold route_vision. rewrite check_daily_reset_set_priority.
  apply route_vision_loop_set_priority.
Qed.

(** C9: two registries that differ in priorities at most get the same
    result and the same environment from [route_text], [route_vision],
    [get_recommended_provider] and [get_quota_status]; the registries they
    are left with again differ in priorities at most, and each keeps the
    priorities it had. *)
Theorem priority_is_not_an_input :
  ∀ (world : Type) (post : world -> request -> post_outcome * world)
    (a b : gmap string ProviderConfig) now image_base64 prompt system task w,
    same_but_priority a b ->
    (let x := route_text post now a prompt system w in
     let y := route_text post now b prompt system w in
     x.1.1 = y.1.1 ∧ x.2 = y.2 ∧ same_but_priority x.1.2 y.1.2 ∧
     (∀ key, priority_of x.1.2 key = priority_of a key) ∧
     (∀ key, priority_of y.1.2 key = priority_of b key)) ∧
    (let x := route_vision post now a image_base64 prompt system w in
     let y := route_vision post now b image_base64 prompt system w in
     x.1.1 = y.1.1 ∧ x.2 = y.2 ∧ same_but_priority x.1.2 y.1.2 ∧
     (∀ key, priority_of x.1.2 key = priority_of a key) ∧
     (∀ key, priority_of y.1.2 key = priority_of b key)) ∧
    (let x := get_recommended_provider now a task in
     let y := get_recommended_provider now b task in
     x.1 = y.1 ∧ same_but_priority x.2 y.2 ∧
     (∀ key, priority_of x.2 key = priority_of a key) ∧
     (∀ key, priority_of y.2 key = priority_of b key)) ∧
    (let x := get_quota_status now a in
     let y := get_quota_status now b in
     x.1 = y.1 ∧ same_but_priority x.2 y.2 ∧
     (∀ key, priority_of x.2 key = priority_of a key) ∧
     (∀ key, priority_of y.2 key = priority_of b key)).
Proof.
  intros world post a b now image_base64 prompt system task w Hab.
  unfold same_but_priority in Hab.
  assert (set_priority 0 <$> _check_daily_reset now a
          = set_priority 0 <$> _check_daily_reset now b) as Hreset.
  { by rewrite <- !check_daily_reset_set_priority, Hab. }
  split; [|split; [|split]].
  - intros x y.
    assert ((x.1.1, set_priority 0 <$> x.1.2, x.2)
            = (y.1.1, set_priority 0 <$> y.1.2, y.2)) as E.
    { pose proof (route_text_set_priority post 0 now a prompt system w) as Ha.
      pose proof (route_text_set_priority post 0 now b prompt system w) as Hb.
      rewrite Hab in Ha. rewrite Ha in Hb. subst x y.
      destruct (route_text post now a prompt system w) as [[r1 a'] w1].
      destruct (route_text post now b prompt system w) as [[r2 b'] w2].
      done. }
    injection E as E1 E2 E3. unfold same_but_priority. split_and!; try done.
    + intros key. apply route_text_priority_of.
    + intros key. apply route_text_priority_of.
  - intros x y.
    assert ((x.1.1, set_priority 0 <$> x.1.2, x.2)
            = (y.1.1, set_priority 0 <$> y.1.2, y.2)) as E.
    { pose proof (route_vision_set_priority post 0 now a image_base64 prompt system w) as Ha.
      pose proof (route_vision_set_priority post 0 now b image_base64 prompt system w) as Hb.
      rewrite Hab in Ha. rewrite Ha in Hb. subst x y.
      destruct (route_vision post now a image_base64 prompt system w) as [[r1 a'] w1].
      destruct (route_vision post now b image_base64 prompt system w) as [[r2 b'] w2].
      done. }
    injection E as E1 E2 E3. unfold same_but_priority. split_and!; try done.
    + intros key. apply route_vision_priority_of.
    + intros key. apply route_vision_priority_of.
  - intros x y. subst x y. unfold get_recommended_provider, same_but_priority. simpl.
    split_and!.
    + rewrite <- (recommend_loop_set_priority 0 (_check_daily_reset now a)).
      rewrite <- (recommend_loop_set_priority 0 (_check_daily_reset now b)).
      by rewrite Hreset.
    + done.
    + intros key. apply priority_of_reset.
    + intros key. apply priority_of_reset.
  - intros x y. subst x y. unfold same_but_priority. split_and!.
    + rewrite <- (quota_status_set_priority now 0 a).
      rewrite <- (quota_status_set_priority now 0 b).
      by rewrite Hab.
    + done.
    + intros key. apply priority_of_reset.
    + intros key. apply priority_of_reset.
Qed.

Lemma priority_is_not_an_input_witness :
  (route_text scripted (day 11) sample_router "hi" None
     ([server_error; ok_reply (chat_reply "yo")], [])).1.1
  = (route_text scripted (day 11) (set_priority 7 <$> sample_router) "hi" None
       ([server_error; ok_reply (chat_reply "yo")], [])).1.1 ∧
  (get_recommended_provider (day 11) sample_router TaskVision).1
  = (get_recommended_provider (day 11) (set_priority 7 <$> sample_router) TaskVision).1.
Proof.
  destruct (priority_is_not_an_input _ scripted sample_router
              (set_priority 7 <$> sample_router) (day 11) "" "hi" None TaskVision
              ([server_error; ok_reply (chat_reply "yo")], []))
    as ((Htext & _) & _ & (Hrecommended & _) & _); [reflexivity|].
  split; [exact Htext | exact Hrecommended].
Defined.

(** ** The capability filter of [route_vision] *)

Lemma charge_capable (providers : gmap string ProviderConfig) served p :
  providers !! served = Some p ->
  vision_order_capable providers ->
  vision_order_capable (<[served := record_use p]> providers).
Proof.
  intros Hp Hcap key q Hkey. destruct (decide (served = key)) as [->|Hne].
  - rewrite lookup_insert_eq. intros [= <-]. by apply (Hcap key p).
  - rewrite lookup_insert_ne by done. by apply Hcap.
Qed.

Lemma perform_capable {world : Type} (post : world -> request -> post_outcome * world)
    c (providers : gmap string ProviderConfig) w :
  vision_order_capable providers ->
  vision_order_capable (fst (perform post c providers w)).
Proof.
  intros Hcap.
  destruct c as [now prompt system|now image_base64 prompt system|now|now task]; simpl.
  - destruct (route_text_outcome post now providers prompt system w)
      as (r & providers' & w' & -> & Hcases). simpl.
    destruct Hcases as [(_ & -> & _)
                       |[(r' & pre & k & rest & p & w1 & _ & _ & _ & _ & _ & _ & Hp & ->)
                        |(e & w1 & req & _ & -> & _)]].
    + by apply check_daily_reset_capable.
    + apply charge_capable; [done|]. by apply check_daily_reset_capable.
    + by apply check_daily_reset_capable.
  - destruct (route_vision_outcome post now providers image_base64 prompt system w)
      as (r & providers' & w' & -> & Hcases). simpl.
    destruct Hcases as [(_ & -> & _)
                       |[(r' & pre & k & rest & p & w1 & _ & _ & _ & _ & _ & _ & Hp & ->)
                        |(e & w1 & req & _ & -> & _)]].
    + by apply check_daily_reset_capable.
    + apply charge_capable; [done|]. by apply check_daily_reset_capable.
    + by apply check_daily_reset_capable.
  - by apply check_daily_reset_capable.
  - by apply check_daily_reset_capable.
Qed.

(** Every registry the router goes through, from its construction on, names
    vision-capable providers only in the vision order. *)
Lemma run_capable {world : Type} (post : world -> request -> post_outcome * world)
    calls (providers : gmap string ProviderConfig) w :
  vision_order_capable providers ->
  vision_order_capable (fst (run post calls providers w)).
Proof.
  revert providers w. induction calls as [|c calls IH]; intros providers w Hcap; simpl;
    [done|].
  pose proof (perform_capable post c providers w Hcap) as Hstep.
  destruct (perform post c providers w) as [providers' w']. by apply IH.
Qed.

(** On a registry that breaks the condition, [route_vision] passes over an
    admissible candidate that is not vision-capable without calling it. *)
Example capability_filter_skips :
  let providers : gmap string ProviderConfig :=
    {[ "gemini" := sample None 0 10; "groq" := set_priority 2 (sample None 0 10) ]} in
  _can_use_provider providers "gemini" = true ∧
  route_vision scripted (day 10) providers "aGk=" "what is this" None
    ([ok_reply (chat_reply "a cat")], [])
  = (Ok exhausted_vision, providers, ([ok_reply (chat_reply "a cat")], [])).
Proof. split; reflexivity. Qed.

(** * Further properties of the router *)

(** ** The recommended provider *)

Lemma vision_gate_false (providers : gmap string ProviderConfig) key :
  _can_use_provider providers key = false -> vision_gate providers key = false.
Proof.
  intros H. unfold vision_gate. destruct (providers !! key); [|done].
  rewrite H. apply andb_false_r.
Qed.

Lemma recommend_loop_spec (providers : gmap string ProviderConfig) task order :
  ∃ answer, recommend_loop providers task order = Ok answer ∧
    match answer with
    | Some key =>
        ∃ pre rest, order = (pre ++ key :: rest)%list ∧
                    class_gate task providers key = true ∧
                    ∀ other, other ∈ pre -> class_gate task providers other = false
    | None => ∀ other, other ∈ order -> class_gate task providers other = false
    end.
Proof.
  induction order as [|key order IH]; simpl.
  - exists None. split; [done|]. intros other Hin. by apply elem_of_nil in Hin.
  - assert (class_gate task providers key = false ->
            ∃ answer, recommend_loop providers task order = Ok answer ∧
              match answer with
              | Some k =>
                  ∃ pre rest, (key :: order = pre ++ k :: rest)%list ∧
                              class_gate task providers k = true ∧
                              ∀ other, other ∈ pre -> class_gate task providers other = false
              | None => ∀ other, other ∈ key :: order ->
                                 class_gate task providers other = false
              end) as Hskip.
    { intros Hgate. destruct IH as (answer & Hloop & Hanswer).
      exists answer. split; [done|]. destruct answer as [k|].
      - destruct Hanswer as (pre & rest & -> & Hk & Hpre).
        exists (key :: pre), rest. split_and!; try done.
        intros other [->|Hin]%elem_of_cons; auto.
      - intros other [->|Hin]%elem_of_cons; auto. }
    destruct (_can_use_provider providers key) eqn:Hcan.
    + destruct (can_use_known _ _ Hcan) as [p Hp].
      assert (vision_gate providers key = vision_capable p) as Hvision.
      { unfold vision_gate. rewrite Hp, Hcan. apply andb_true_r. }
      rewrite Hp. destruct task.
      * exists (Some key). split; [done|]. exists [], order. split_and!; try done.
        intros other Hin. by apply elem_of_nil in Hin.
      * destruct (vision_capable p) eqn:Hcap.
        -- exists (Some key). split; [done|]. exists [], order. split_and!; try done.
           intros other Hin. by apply elem_of_nil in Hin.
        -- by apply Hskip.
    + apply Hskip. destruct task; [done|]. by apply vision_gate_false.
Qed.

Lemma recommended_spec now (providers : gmap string ProviderConfig) task :
  ∃ answer,
    get_recommended_provider now providers task
    = (Ok answer, _check_daily_reset now providers) ∧
    match answer with
    | Some key =>
        ∃ pre rest, class_order task = (pre ++ key :: rest)%list ∧
                    class_gate task (_check_daily_reset now providers) key = true ∧
                    ∀ other, other ∈ pre ->
                             class_gate task (_check_daily_reset now providers) other = false
    | None => ∀ other, other ∈ class_order task ->
                       class_gate task (_check_daily_reset now providers) other = false
    end.
Proof.
  unfold get_recommended_provider.
  destruct (recommend_loop_spec (_check_daily_reset now providers) task (class_order task))
    as (answer & Hloop & Hanswer).
  exists answer. split; [|done].
  change (match task with
          | TaskText => ["opencode_zen"; "mistral"; "groq"; "huggingface"]
          | TaskVision => ["gemini"; "groq"]
          end) with (class_order task).
  by rewrite Hloop.
Qed.

(** X1: [get_recommended_provider] never raises, leaves the registry as the
    lazy reset left it, and answers with the first candidate of the class
    order that passes the gate of the class (admissible, and vision-capable
    for the vision class); it answers [None] exactly when no candidate
    passes. *)
Theorem recommended_is_first_admissible :
  ∀ now (providers : gmap string ProviderConfig) task,
    ∃ answer,
      get_recommended_provider now providers task
      = (Ok answer, _check_daily_reset now providers) ∧
      match answer with
      | Some key =>
          ∃ pre rest, class_order task = (pre ++ key :: rest)%list ∧
                      class_gate task (_check_daily_reset now providers) key = true ∧
                      ∀ other, other ∈ pre ->
                               class_gate task (_check_daily_reset now providers) other
                               = false
      | None => ∀ other, other ∈ class_order task ->
                         class_gate task (_check_daily_reset now providers) other = false
      end.
Proof.
  intros now providers task. unfold get_recommended_provider.
  destruct (recommend_loop_spec (_check_daily_reset now providers) task (class_order task))
    as (answer & Hloop & Hanswer).
  exists answer. split; [|exact Hanswer].
  destruct task; simpl in Hloop |- *; by rewrite Hloop.
Qed.

Lemma skipped_fruitless {world : Type} (gate : string -> bool)
    (call_provider : string -> world -> res result * world) order w :
  (∀ key, key ∈ order -> gate key = false) ->
  fruitless gate call_provider order w w.
Proof.
  induction order as [|key order IH]; intros Hall; [constructor|].
  apply fruitless_skip.
  - apply Hall, list_elem_of_here.
  - apply IH. intros k Hk. by apply Hall, list_elem_of_further.
Qed.

(** X2: when [get_recommended_provider] answers [None] for a class, the
    routing call of that class at the same time returns the aggregate
    failure and sends no request: the environment is untouched. *)
Theorem nothing_recommended_nothing_sent :
  ∀ (world : Type) (post : world -> request -> post_outcome * world)
    now (providers : gmap string ProviderConfig) image_base64 prompt system w,
    (fst (get_recommended_provider now providers TaskText) = Ok None ->
     route_text post now providers prompt system w
     = (Ok exhausted_text, _check_daily_reset now providers, w)) ∧
    (fst (get_recommended_provider now providers TaskVision) = Ok None ->
     route_vision post now providers image_base64 prompt system w
     = (Ok exhausted_vision, _check_daily_reset now providers, w)).
Proof.
  intros world post now providers image_base64 prompt system w. split.
  - intros Hnone.
    destruct (recommended_spec now providers TaskText) as (answer & Heq & Hanswer).
    rewrite Heq in Hnone. simpl in Hnone. injection Hnone as ->.
    unfold route_text. rewrite route_text_loop_sweep.
    apply sweep_fruitless. apply skipped_fruitless. exact Hanswer.
  - intros Hnone.
    destruct (recommended_spec now providers TaskVision) as (answer & Heq & Hanswer).
    rewrite Heq in Hnone. simpl in Hnone. injection Hnone as ->.
    unfold route_vision. rewrite route_vision_loop_sweep.
    apply sweep_fruitless. apply skipped_fruitless. exact Hanswer.
Qed.

Lemma nothing_recommended_nothing_sent_witness :
  route_text scripted (day 10)
    (__init__ (fun _ => None) (day 10) (day 10) (day 10) (day 10) (day 10) (day 10))
    "hi" None ([ok_reply (chat_reply "yo")], [])
  = (Ok exhausted_text,
     _check_daily_reset (day 10)
       (__init__ (fun _ => None) (day 10) (day 10) (day 10) (day 10) (day 10) (day 10)),
     ([ok_reply (chat_reply "yo")], [])).
Proof.
  apply (proj1 (nothing_recommended_nothing_sent _ scripted (day 10)
                  (__init__ (fun _ => None) (day 10) (day 10) (day 10) (day 10) (day 10)
                     (day 10))
                  "" "hi" None ([ok_reply (chat_reply "yo")], []))).
  reflexivity.
Defined.

(** X3: the provider [get_recommended_provider] names is the first one the
    routing call of that class calls: if its adapter reports success on the
    untouched environment, the routing call returns that result, records one
    use for it and leaves the environment as that one call left it. *)
Theorem recommended_is_called_first :
  ∀ (world : Type) (post : world -> request -> post_outcome * world)
    now (providers : gmap string ProviderConfig) image_base64 prompt system key r w w',
    let current := _check_daily_reset now providers in
    (fst (get_recommended_provider now providers TaskText) = Ok (Some key) ->
     _call_text_provider post current key prompt system w = (Ok r, w') ->
     success r = true ->
     ∃ p, current !! key = Some p ∧
          route_text post now providers prompt system w
          = (Ok r, <[key := record_use p]> current, w')) ∧
    (fst (get_recommended_provider now providers TaskVision) = Ok (Some key) ->
     _call_vision_provider post current key image_base64 prompt system w = (Ok r, w') ->
     success r = true ->
     ∃ p, current !! key = Some p ∧
          route_vision post now providers image_base64 prompt system w
          = (Ok r, <[key := record_use p]> current, w')).
Proof.
  intros world post now providers image_base64 prompt system key r w w' current. split.
  - intros Hsome Hcall Hok.
    destruct (recommended_spec now providers TaskText) as (answer & Heq & Hanswer).
    rewrite Heq in Hsome. simpl in Hsome. injection Hsome as ->.
    destruct Hanswer as (pre & rest & Horder & Hgate & Hpre). simpl in Horder, Hgate, Hpre.
    fold current in Hgate, Hpre.
    destruct (can_use_known _ _ Hgate) as [p Hp]. exists p. split; [done|].
    unfold route_text. fold current. rewrite route_text_loop_sweep, Horder.
    apply sweep_first_success with w; try done. by apply skipped_fruitless.
  - intros Hsome Hcall Hok.
    destruct (recommended_spec now providers TaskVision) as (answer & Heq & Hanswer).
    rewrite Heq in Hsome. simpl in Hsome. injection Hsome as ->.
    destruct Hanswer as (pre & rest & Horder & Hgate & Hpre). simpl in Horder, Hgate, Hpre.
    fold current in Hgate, Hpre.
    destruct (can_use_known _ _ (vision_gate_can_use _ _ Hgate)) as [p Hp].
    exists p. split; [done|].
    unfold route_vision. fold current. rewrite route_vision_loop_sweep, Horder.
    apply sweep_first_success with w; try done. by apply skipped_fruitless.
Qed.

Lemma recommended_is_called_first_witness :
  fst (fst (route_vision scripted (day 10) sample_router "aGk=" "what is this" None
              ([ok_reply (gemini_reply "a cat")], [])))
  = Ok (Success (JStr "a cat") "gemini" (Some "gemini-2.0-flash")).
Proof.
  epose proof (recommended_is_called_first _ scripted (day 10) sample_router
                 "aGk=" "what is this" None "gemini"
                 (Success (JStr "a cat") "gemini" (Some "gemini-2.0-flash"))
                 ([ok_reply (gemini_reply "a cat")], []) _) as H.
  cbv zeta in H. destruct H as [_ Hvision].
  destruct Hvision as (p & _ & ->); reflexivity.
Defined.

(** ** The quota report *)

Lemma quota_status_lookup now (providers : gmap string ProviderConfig) key :
  fst (get_quota_status now providers) !! key
  = quota_entry (_check_daily_reset now providers) key
      <$> _check_daily_reset now providers !! key.
Proof.
  unfold get_quota_status. simpl. rewrite map_lookup_imap.
  by destruct (_check_daily_reset now providers !! key).
Qed.

Lemma quota_entry_available (providers : gmap string ProviderConfig) key p :
  providers !! key = Some p ->
  qs_available (quota_entry providers key p)
  = qs_configured (quota_entry providers key p)
    && match qs_remaining (quota_entry providers key p) with
       | Remaining n => 0 <? n
       | Unlimited => true
       end.
Proof.
  intros Hp. unfold quota_entry, _can_use_provider. simpl. rewrite Hp.
  destruct (truthy_str (api_key p)); simpl; [|done].
  destruct (rate_limit p) as [limit|]; [|done].
  destruct (Z.eqb_spec limit 0); simpl; [done|].
  destruct (Z.leb_spec limit (requests_today p)), (Z.ltb_spec 0 (limit - requests_today p));
    simpl; auto; lia.
Qed.

(** X4: [get_quota_status] reports on exactly the providers of the registry,
    with the counter and limit the lazily reset registry holds; a provider is
    reported available exactly when it is reported configured and its
    remaining quota is unlimited or positive, and its remaining quota is
    unlimited exactly when its limit is absent or 0. *)
Theorem quota_report_consistent :
  ∀ now (providers : gmap string ProviderConfig) key,
    match fst (get_quota_status now providers) !! key with
    | None => providers !! key = None
    | Some q =>
        ∃ p, _check_daily_reset now providers !! key = Some p ∧
             qs_requests_today q = requests_today p ∧
             qs_rate_limit q = rate_limit p ∧
             qs_available q = _can_use_provider (_check_daily_reset now providers) key ∧
             qs_available q
             = qs_configured q && match qs_remaining q with
                                  | Remaining n => 0 <? n
                                  | Unlimited => true
                                  end ∧
             (qs_remaining q = Unlimited <->
              rate_limit p = None ∨ rate_limit p = Some 0) ∧
             (∀ n, qs_remaining q = Remaining n -> 
                   ∃ limit, rate_limit p = Some limit ∧ n = limit - requests_today p)
    end.
Proof.
  intros now providers key. rewrite quota_status_lookup.
  destruct (_check_daily_reset now providers !! key) as [p|] eqn:Hp; simpl.
  - exists p. split_and!; try done.
    + by apply quota_entry_available.
    + destruct (rate_limit p) as [limit|]; simpl.
      * destruct (Z.eqb_spec limit 0) as [->|Hne]; simpl.
        -- split; auto.
        -- split; [done|]. intros [?|[= ?]]; done.
      * split; auto.
    + intros n. destruct (rate_limit p) as [limit|]; simpl; [|done].
      destruct (Z.eqb_spec limit 0); simpl; [done|]. intros [= <-]. eauto.
  - rewrite lookup_check_daily_reset in Hp. by destruct (providers !! key).
Qed.

(** X5: the provider [get_recommended_provider] names is one that
    [get_quota_status] reports as available at the same time, and for the
    vision class one whose reported type is not text; when it names none,
    every candidate of the class order that is registered is reported
    unavailable or, for the vision class, of type text. *)
Theorem recommended_is_reported_available :
  ∀ now (providers : gmap string ProviderConfig) task,
    match fst (get_recommended_provider now providers task) with
    | Ok (Some key) =>
        ∃ q, fst (get_quota_status now providers) !! key = Some q ∧
             qs_available q = true ∧
             (task = TaskVision -> qs_type q ≠ CapText)
    | Ok None =>
        ∀ key q, key ∈ class_order task ->
                 fst (get_quota_status now providers) !! key = Some q ->
                 qs_available q = false ∨ (task = TaskVision ∧ qs_type q = CapText)
    | Raise _ => False
    end.
Proof.
  intros now providers task.
  destruct (recommended_spec now providers task) as (answer & -> & Hanswer). cbn [fst].
  destruct answer as [key|].
  - destruct Hanswer as (pre & rest & _ & Hgate & _).
    assert (_can_use_provider (_check_daily_reset now providers) key = true) as Hcan.
    { destruct task; [done|]. by apply vision_gate_can_use. }
    destruct (can_use_known _ _ Hcan) as [p Hp].
    exists (quota_entry (_check_daily_reset now providers) key p).
    rewrite quota_status_lookup, Hp. split_and!; try done.
    intros ->. simpl in *. unfold vision_gate in Hgate. rewrite Hp in Hgate.
    apply andb_true_iff in Hgate as [Hcap _]. unfold vision_capable in Hcap.
    by destruct (provider_type p).
  - intros key q Hin. rewrite quota_status_lookup.
    destruct (_check_daily_reset now providers !! key) as [p|] eqn:Hp; simpl; [|done].
    intros [= <-]. simpl. specialize (Hanswer key Hin).
    destruct task; simpl in *; [by left|].
    unfold vision_gate in Hanswer. rewrite Hp in Hanswer.
    apply andb_false_iff in Hanswer as [Hcap|Hcan]; [right | by left].
    split; [done|]. unfold vision_capable in Hcap. by destruct (provider_type p).
Qed.

(** ** What a sequence of calls keeps *)

Section Kept.
Context {world : Type}.
Variable post : world -> request -> post_outcome * world.

(** Every call leaves the registry lazily reset, with at most one use
    recorded for a provider that was admissible after the reset. *)
Lemma perform_outcome c (providers : gmap string ProviderConfig) w :
  ∃ now,
    fst (perform post c providers w) = _check_daily_reset now providers ∨
    ∃ key p,
      _can_use_provider (_check_daily_reset now providers) key = true ∧
      _check_daily_reset now providers !! key = Some p ∧
      fst (perform post c providers w)
      = <[key := record_use p]> (_check_daily_reset now providers).
Proof.
  destruct c as [now prompt system|now image_base64 prompt system|now|now task];
    exists now; simpl.
  - destruct (route_text_outcome post now providers prompt system w)
      as (r & providers' & w' & -> & Hcases). simpl.
    destruct Hcases as [(_ & -> & _)
                         |[(r' & pre & k & rest & p & w1 & _ & _ & _ & Hgate & _ & _ & Hp & ->)
                          |(e & w1 & req & _ & -> & _)]];
      [by left| |by left].
    right. by exists k, p.
  - destruct (route_vision_outcome post now providers image_base64 prompt system w)
      as (r & providers' & w' & -> & Hcases). simpl.
    destruct Hcases as [(_ & -> & _)
                         |[(r' & pre & k & rest & p & w1 & _ & _ & _ & Hgate & _ & _ & Hp & ->)
                          |(e & w1 & req & _ & -> & _)]];
      [by left| |by left].
    right. exists k, p. split_and!; try done. by apply vision_gate_can_use.
  - by left.
  - by left.
Qed.

Lemma run_invariant (P : gmap string ProviderConfig -> Prop) :
  (∀ now providers, P providers -> P (_check_daily_reset now providers)) ->
  (∀ providers key p,
     P providers -> _can_use_provider providers key = true ->
     providers !! key = Some p -> P (<[key := record_use p]> providers)) ->
  ∀ calls providers w, P providers -> P (fst (run post calls providers w)).
Proof.
  intros Hreset Hcharge calls.
  induction calls as [|c calls IH]; intros providers w HP; simpl; [done|].
  destruct (perform_outcome c providers w) as (now & Hstep).
  destruct (perform post c providers w) as [providers' w']. simpl in Hstep.
  apply IH. destruct Hstep as [->|(key & p & Hgate & Hp & ->)]; auto.
Qed.
End Kept.

Lemma descriptor_reset now p : descriptor (reset_if_new_day now p) = descriptor p.
Proof. unfold reset_if_new_day. by destruct (date (last_reset p) <? date now). Qed.

(** X6: no sequence of calls adds or removes a provider or changes what
    describes one: name, endpoint, model, credential, capability, priority
    and limit stay as they were; only counters and reset dates move. *)
Theorem descriptors_never_change :
  ∀ (world : Type) (post : world -> request -> post_outcome * world)
    calls (providers : gmap string ProviderConfig) w key,
    descriptor <$> fst (run post calls providers w) !! key
    = descriptor <$> providers !! key.
Proof.
  intros world post calls providers w key.
  apply (run_invariant post
           (fun current => descriptor <$> current !! key = descriptor <$> providers !! key));
    [| |done].
  - intros now current <-. rewrite lookup_check_daily_reset.
    destruct (current !! key) as [p|]; simpl; [|done]. by rewrite descriptor_reset.
  - intros current served p <- _ Hp. destruct (decide (served = key)) as [->|Hne].
    + by rewrite lookup_insert_eq, Hp.
    + by rewrite lookup_insert_ne.
Qed.

(** X7: if no counter is negative, no counter is negative after any
    sequence of calls. *)
Theorem counters_stay_nonnegative :
  ∀ (world : Type) (post : world -> request -> post_outcome * world)
    calls (providers : gmap string ProviderConfig) w,
    (∀ key p, providers !! key = Some p -> 0 <= requests_today p) ->
    ∀ key p, fst (run post calls providers w) !! key = Some p -> 0 <= requests_today p.
Proof.
  intros world post calls providers w Hstart.
  apply (run_invariant post
           (fun current => ∀ key p, current !! key = Some p -> 0 <= requests_today p));
    [| |done].
  - intros now current Hcur key p. rewrite lookup_check_daily_reset.
    destruct (current !! key) as [q|] eqn:Hq; simpl; [|done]. intros [= <-].
    destruct (reset_if_new_day_cases now q) as [[_ ->]|[_ ->]]; simpl; [lia|].
    by apply (Hcur key).
  - intros current served q Hcur _ Hq key p.
    destruct (decide (served = key)) as [->|Hne].
    + rewrite lookup_insert_eq. intros [= <-]. simpl.
      specialize (Hcur key q Hq). lia.
    + rewrite lookup_insert_ne by done. apply Hcur.
Qed.

Lemma counters_stay_nonnegative_witness :
  match fst (run (always (ok_reply (chat_reply "yo")))
               [RouteText (day 10) "a" None; GetQuotaStatus (day 11);
                RouteText (day 11) "b" None]
               two_candidates tt) !! "mistral" with
  | Some p => 0 <= requests_today p
  | None => True
  end.
Proof.
  assert (∀ key p, two_candidates !! key = Some p -> 0 <= requests_today p) as Hstart.
  { intros key p. unfold two_candidates.
    rewrite lookup_insert. case_decide; [intros [= <-]; simpl; lia|].
    rewrite lookup_singleton. case_decide; [intros [= <-]; simpl; lia|done]. }
  pose proof (counters_stay_nonnegative unit (always (ok_reply (chat_reply "yo")))
                [RouteText (day 10) "a" None; GetQuotaStatus (day 11);
                 RouteText (day 11) "b" None]
                two_candidates tt Hstart "mistral") as Hafter.
  destruct (fst (run (always (ok_reply (chat_reply "yo")))
                   [RouteText (day 10) "a" None; GetQuotaStatus (day 11);
                    RouteText (day 11) "b" None]
                   two_candidates tt) !! "mistral") as [p|]; [|exact I].
  by apply Hafter.
Defined.

(** X8: the date of a provider's last reset never moves back, whatever
    times the calls of a sequence read from the clock. *)
Theorem last_reset_never_moves_back :
  ∀ (world : Type) (post : world -> request -> post_outcome * world)
    calls (providers : gmap string ProviderConfig) w key p,
    providers !! key = Some p ->
    ∃ p', fst (run post calls providers w) !! key = Some p' ∧
          date (last_reset p) <= date (last_reset p').
Proof.
  intros world post calls providers w key p Hp.
  apply (run_invariant post
           (fun current => ∃ p', current !! key = Some p' ∧
                                 date (last_reset p) <= date (last_reset p')));
    [| |exists p; split; [done|lia]].
  - intros now current (q & Hq & Hle). exists (reset_if_new_day now q).
    rewrite lookup_check_daily_reset, Hq. split; [done|].
    destruct (reset_if_new_day_cases now q) as [[? ->]|[? ->]]; simpl; lia.
  - intros current served s (q & Hq & Hle) _ Hs.
    destruct (decide (served = key)) as [->|Hne].
    + exists (record_use s). rewrite lookup_insert_eq. split; [done|].
      assert (s = q) as -> by congruence. done.
    + exists q. by rewrite lookup_insert_ne.
Qed.

Lemma last_reset_never_moves_back_witness :
  ∃ p', fst (run (always (ok_reply (chat_reply "yo")))
               [RouteText (day 12) "a" None; GetQuotaStatus (day 11); RouteText (day 9) "b" None]
               two_candidates tt) !! "mistral" = Some p' ∧
        date (last_reset (sample None 0 10)) <= date (last_reset p').
Proof.
  apply (last_reset_never_moves_back unit (always (ok_reply (chat_reply "yo")))
           [RouteText (day 12) "a" None; GetQuotaStatus (day 11); RouteText (day 9) "b" None]
           two_candidates tt "mistral" (sample None 0 10)).
  reflexivity.
Defined.

(** X9: a routing call charges no provider outside the candidate order of
    its class: after [route_text] every provider that is not a text
    candidate, and after [route_vision] every provider that is not a vision
    candidate, is as the lazy reset left it. *)
Theorem only_class_candidates_are_charged :
  ∀ (world : Type) (post : world -> request -> post_outcome * world)
    now (providers : gmap string ProviderConfig) image_base64 prompt system w key,
    (key ∉ text_providers ->
     snd (fst (route_text post now providers prompt system w)) !! key
     = _check_daily_reset now providers !! key) ∧
    (key ∉ vision_providers ->
     snd (fst (route_vision post now providers image_base64 prompt system w)) !! key
     = _check_daily_reset now providers !! key).
Proof.
  intros world post now providers image_base64 prompt system w key. split; intros Hout.
  - destruct (route_text_outcome post now providers prompt system w)
      as (r & providers' & w' & -> & Hcases). simpl.
    destruct Hcases as [(_ & -> & _)
                         |[(r' & pre & k & rest & p & w1 & _ & Horder & _ & _ & _ & _ & _ & ->)
                          |(e & w1 & req & _ & -> & _)]];
      [done| |done].
    apply lookup_insert_ne. intros ->. apply Hout. rewrite Horder.
    apply elem_of_app. right. apply list_elem_of_here.
  - destruct (route_vision_outcome post now providers image_base64 prompt system w)
      as (r & providers' & w' & -> & Hcases). simpl.
    destruct Hcases as [(_ & -> & _)
                         |[(r' & pre & k & rest & p & w1 & _ & Horder & _ & _ & _ & _ & _ & ->)
                          |(e & w1 & req & _ & -> & _)]];
      [done| |done].
    apply lookup_insert_ne. intros ->. apply Hout. rewrite Horder.
    apply elem_of_app. right. apply list_elem_of_here.
Qed.

Lemma only_class_candidates_are_charged_witness :
  snd (fst (route_text scripted (day 10) sample_router "hi" None
              ([ok_reply (chat_reply "yo")], []))) !! "gemini"
  = _check_daily_reset (day 10) sample_router !! "gemini".
Proof.
  apply (proj1 (only_class_candidates_are_charged _ scripted (day 10) sample_router
                  "" "hi" None ([ok_reply (chat_reply "yo")], []) "gemini")).
  apply (bool_decide_unpack _). by vm_compute.
Defined.

(** ** The registry after construction *)

Lemma registry_lookup getenv t_zen t_gemini t_mistral t_groq t_hf key :
  registry getenv t_zen t_gemini t_mistral t_groq t_hf !! key
  = if decide (key = "opencode_zen") then
      Some (fresh "OpenCode Zen (grok-code)" "https://api.opencode.ai/v1/chat/completions"
              (Some "grok-code") (getenv "OPENCODE_ZEN_API_KEY") CapText 1 None t_zen)
    else if decide (key = "gemini") then
      Some (fresh "Google Gemini 2.0 Flash"
         "https://generativelanguage.googleapis.com/v1beta/models/gemini-2.0-flash:generateContent"
         None (getenv "GEMINI_API_KEY") CapVision 1 (Some 1500) t_gemini)
    else if decide (key = "mistral") then
      Some (fresh "Mistral AI" "https://api.mistral.ai/v1/chat/completions"
              (Some "mistral-small-latest") (getenv "MISTRAL_API_KEY") CapText 2 None
              t_mistral)
    else if decide (key = "groq") then
      Some (fresh "Groq (llama-3.2-90b-vision)"
              "https://api.groq.com/openai/v1/chat/completions"
              (Some "llama-3.2-90b-vision-preview") (getenv "GROQ_API_KEY") CapBoth 2
              (Some 14400) t_groq)
    else if decide (key = "huggingface") then
      Some (fresh "HuggingFace Inference"
              "https://api-inference.huggingface.co/models/mistralai/Mistral-7B-Instruct-v0.2"
              None (getenv "HUGGINGFACE_API_KEY") CapText 3 None t_hf)
    else None.
Proof.
  unfold registry. simpl.
  repeat (rewrite lookup_insert; case_decide; [subst; by repeat case_decide|]).
  rewrite lookup_empty. by repeat case_decide.
Qed.

Lemma credential_variables_inv key var :
  (key, var) ∈ credential_variables ->
  (key = "opencode_zen" ∧ var = "OPENCODE_ZEN_API_KEY") ∨
  (key = "gemini" ∧ var = "GEMINI_API_KEY") ∨
  (key = "mistral" ∧ var = "MISTRAL_API_KEY") ∨
  (key = "groq" ∧ var = "GROQ_API_KEY") ∨
  (key = "huggingface" ∧ var = "HUGGINGFACE_API_KEY").
Proof.
  unfold credential_variables. rewrite !elem_of_cons, elem_of_nil.
  intros [[= -> ->]|[[= -> ->]|[[= -> ->]|[[= -> ->]|[[= -> ->]|[]]]]]]; auto 10.
Qed.

Lemma can_use_fresh now (providers : gmap string ProviderConfig) key
    nm ep mdl credential ty prio limit created :
  providers !! key = Some (fresh nm ep mdl credential ty prio limit created) ->
  (∀ l, limit = Some l -> 0 < l) ->
  _can_use_provider (_check_daily_reset now providers) key = truthy_str credential ∧
  ∀ p, _check_daily_reset now providers !! key = Some p -> requests_today p = 0.
Proof.
  intros Hp Hpos. unfold _can_use_provider. rewrite lookup_check_daily_reset, Hp. simpl.
  split.
  - destruct (reset_if_new_day_cases now (fresh nm ep mdl credential ty prio limit created))
      as [[_ ->]|[_ ->]]; simpl;
      (destruct (truthy_str credential); simpl; [|done];
       destruct limit as [l|]; [|done]; specialize (Hpos l eq_refl);
       destruct (Z.eqb_spec l 0); [lia|]; destruct (Z.leb_spec l 0); [lia|done]).
  - intros p [= <-].
    by destruct (reset_if_new_day_cases now (fresh nm ep mdl credential ty prio limit created))
      as [[_ ->]|[_ ->]].
Qed.

(** X10: right after construction every counter is 0 and a provider is
    admissible exactly when it is one of the five registered providers and
    its environment variable is set to a non-empty value, whatever the times
    read from the clock during construction. *)
Theorem fresh_router_admits_configured :
  ∀ getenv t_zen t_gemini t_mistral t_groq t_hf now key,
    (_can_use_provider (__init__ getenv t_zen t_gemini t_mistral t_groq t_hf now) key = true
     <-> ∃ var, (key, var) ∈ credential_variables ∧ truthy_str (getenv var) = true) ∧
    (∀ p, __init__ getenv t_zen t_gemini t_mistral t_groq t_hf now !! key = Some p ->
          requests_today p = 0).
Proof.
  intros getenv t_zen t_gemini t_mistral t_groq t_hf now key.
  unfold __init__.
  assert (∀ l, Some 1500 = Some l -> 0 < l) as H1500 by (intros l [= <-]; lia).
  assert (∀ l, Some 14400 = Some l -> 0 < l) as H14400 by (intros l [= <-]; lia).
  assert (∀ l, @None Z = Some l -> 0 < l) as Hnone by done.
  pose proof (registry_lookup getenv t_zen t_gemini t_mistral t_groq t_hf key) as Hreg.
  repeat case_decide; subst.
  - destruct (can_use_fresh now _ _ _ _ _ _ _ _ _ _ Hreg Hnone) as [-> Hzero].
    split; [|exact Hzero]. split.
    + intros Htruthy. exists "OPENCODE_ZEN_API_KEY". split; [|done].
      unfold credential_variables. rewrite !elem_of_cons. auto.
    + intros (var & Hin & Hvar).
      apply credential_variables_inv in Hin
        as [[_ ->]|[[? _]|[[? _]|[[? _]|[? _]]]]]; done.
  - destruct (can_use_fresh now _ _ _ _ _ _ _ _ _ _ Hreg H1500) as [-> Hzero].
    split; [|exact Hzero]. split.
    + intros Htruthy. exists "GEMINI_API_KEY". split; [|done].
      unfold credential_variables. rewrite !elem_of_cons. auto.
    + intros (var & Hin & Hvar).
      apply credential_variables_inv in Hin
        as [[? _]|[[_ ->]|[[? _]|[[? _]|[? _]]]]]; done.
  - destruct (can_use_fresh now _ _ _ _ _ _ _ _ _ _ Hreg Hnone) as [-> Hzero].
    split; [|exact Hzero]. split.
    + intros Htruthy. exists "MISTRAL_API_KEY". split; [|done].
      unfold credential_variables. rewrite !elem_of_cons. auto.
    + intros (var & Hin & Hvar).
      apply credential_variables_inv in Hin
        as [[? _]|[[? _]|[[_ ->]|[[? _]|[? _]]]]]; done.
  - destruct (can_use_fresh now _ _ _ _ _ _ _ _ _ _ Hreg H14400) as [-> Hzero].
    split; [|exact Hzero]. split.
    + intros Htruthy. exists "GROQ_API_KEY". split; [|done].
      unfold credential_variables. rewrite !elem_of_cons. auto 10.
    + intros (var & Hin & Hvar).
      apply credential_variables_inv in Hin
        as [[? _]|[[? _]|[[? _]|[[_ ->]|[? _]]]]]; done.
  - destruct (can_use_fresh now _ _ _ _ _ _ _ _ _ _ Hreg Hnone) as [-> Hzero].
    split; [|exact Hzero]. split.
    + intros Htruthy. exists "HUGGINGFACE_API_KEY". split; [|done].
      unfold credential_variables. rewrite !elem_of_cons. auto 10.
    + intros (var & Hin & Hvar).
      apply credential_variables_inv in Hin
        as [[? _]|[[? _]|[[? _]|[[? _]|[_ ->]]]]]; done.
  - split.
    + unfold _can_use_provider. rewrite lookup_check_daily_reset, Hreg. simpl.
      split; [done|]. intros (var & Hin & _).
      apply credential_variables_inv in Hin
        as [[? _]|[[? _]|[[? _]|[[? _]|[? _]]]]]; done.
    + intros p. by rewrite lookup_check_daily_reset, Hreg.
Qed.

(** ** The requests a call sends *)

Section Logged.
Context {world : Type}.
Variable post : world -> request -> post_outcome * world.

Lemma post_json_logged req w log :
  post_json (logged post) req (w, log)
  = (fst (post_json post req w), (snd (post_json post req w), (log ++ [req])%list)).
Proof. unfold post_json, logged. simpl. by destruct (post w req) as [o w']. Qed.

Lemma shape_logged req (read : json -> res json) (wrap : json -> result) w log :
  (let '(data, w1) := post_json (logged post) req (w, log) in
   (data ← data; text ← read data; Ok (wrap text), w1))
  = (let '(r, w') :=
       (let '(data, w1) := post_json post req w in
        (data ← data; text ← read data; Ok (wrap text), w1)) in
     (r, (w', (log ++ [req])%list))).
Proof. rewrite post_json_logged. by destruct (post_json post req w). Qed.

Lemma bearer_sent p extra : bearer p ∈ bearer p :: extra.
Proof. apply list_elem_of_here. Qed.

Lemma call_text_logged (providers : gmap string ProviderConfig) key p prompt system :
  providers !! key = Some p ->
  ∃ sent, (length sent <= 1)%nat ∧ Forall (addressed_to p) sent ∧
    ∀ w log,
      _call_text_provider (logged post) providers key prompt system (w, log)
      = (let '(r, w') := _call_text_provider post providers key prompt system w in
         (r, (w', (log ++ sent)%list))).
Proof.
  intros Hp. unfold _call_text_provider. rewrite Hp.
  destruct (String.eqb key "opencode_zen").
  { eexists [_]. split_and!; [simpl; lia | |].
    2: { intros w log. unfold _call_opencode_zen. rewrite shape_logged.
         destruct (post_json post _ w) as [[data|e] w1]; simpl;
           [destruct (chat_content data) as [text|e]; simpl|];
           try destruct (is_exception e); done. }
    constructor; [|constructor]. left. split; [done|apply bearer_sent]. }
  destruct (String.eqb key "mistral").
  { eexists [_]. split_and!; [simpl; lia | |].
    2: { intros w log. unfold _call_mistral. rewrite shape_logged.
         destruct (post_json post _ w) as [[data|e] w1]; simpl;
           [destruct (chat_content data) as [text|e]; simpl|];
           try destruct (is_exception e); done. }
    constructor; [|constructor]. left. split; [done|apply bearer_sent]. }
  destruct (String.eqb key "groq").
  { eexists [_]. split_and!; [simpl; lia | |].
    2: { intros w log. unfold _call_groq_text. rewrite shape_logged.
         destruct (post_json post _ w) as [[data|e] w1]; simpl;
           [destruct (chat_content data) as [text|e]; simpl|];
           try destruct (is_exception e); done. }
    constructor; [|constructor]. left. split; [done|apply bearer_sent]. }
  destruct (String.eqb key "huggingface").
  { eexists [_]. split_and!; [simpl; lia | |].
    2: { intros w log. unfold _call_huggingface. rewrite shape_logged.
         destruct (post_json post _ w) as [[data|e] w1]; simpl;
           [destruct (huggingface_text data) as [text|e]; simpl|];
           try destruct (is_exception e); done. }
    constructor; [|constructor]. left. split; [done|apply bearer_sent]. }
  exists []. split_and!; [simpl; lia | constructor |].
  intros w log. simpl. by rewrite app_nil_r.
Qed.

Lemma call_vision_logged (providers : gmap string ProviderConfig) key p
    image_base64 prompt system :
  providers !! key = Some p ->
  ∃ sent, (length sent <= 1)%nat ∧ Forall (addressed_to p) sent ∧
    ∀ w log,
      _call_vision_provider (logged post) providers key image_base64 prompt system (w, log)
      = (let '(r, w') :=
           _call_vision_provider post providers key image_base64 prompt system w in
         (r, (w', (log ++ sent)%list))).
Proof.
  intros Hp. unfold _call_vision_provider. rewrite Hp.
  destruct (String.eqb key "gemini").
  { eexists [_]. split_and!; [simpl; lia | |].
    2: { intros w log. unfold _call_gemini_vision. rewrite shape_logged.
         destruct (post_json post _ w) as [[data|e] w1]; simpl;
           [destruct (gemini_text data) as [text|e]; simpl|];
           try destruct (is_exception e); done. }
    constructor; [|constructor]. by right. }
  destruct (String.eqb key "groq").
  { eexists [_]. split_and!; [simpl; lia | |].
    2: { intros w log. unfold _call_groq_vision. rewrite shape_logged.
         destruct (post_json post _ w) as [[data|e] w1]; simpl;
           [destruct (chat_content data) as [text|e]; simpl|];
           try destruct (is_exception e); done. }
    constructor; [|constructor]. left. split; [done|apply bearer_sent]. }
  exists []. split_and!; [simpl; lia | constructor |].
  intros w log. simpl. by rewrite app_nil_r.
Qed.
End Logged.

Lemma sweep_logged {world : Type} (gate : string -> bool)
    (call_provider : string -> world -> res result * world)
    (call_logged : string -> world * list request -> res result * (world * list request))
    (exhausted : result) (P : request -> Prop)
    (providers : gmap string ProviderConfig) order :
  (∀ key, key ∈ order -> gate key = true ->
     ∃ sent, (length sent <= 1)%nat ∧ Forall P sent ∧
       ∀ w log, call_logged key (w, log)
                = (let '(r, w') := call_provider key w in (r, (w', (log ++ sent)%list)))) ->
  ∀ w log,
    ∃ sent, (length sent <= length order)%nat ∧ Forall P sent ∧
      sweep gate call_logged exhausted providers order (w, log)
      = (let '(r, providers', w') := sweep gate call_provider exhausted providers order w in
         (r, providers', (w', (log ++ sent)%list))).
Proof.
  induction order as [|key order IH]; intros Hcalls w log.
  - exists []. simpl. rewrite app_nil_r. split_and!; [lia | constructor | done].
  - assert (∀ k, k ∈ order -> gate k = true ->
              ∃ sent, (length sent <= 1)%nat ∧ Forall P sent ∧
                ∀ w log, call_logged k (w, log)
                         = (let '(r, w') := call_provider k w in
                            (r, (w', (log ++ sent)%list)))) as Hrest.
    { intros k Hk. apply Hcalls. by apply list_elem_of_further. }
    simpl. destruct (gate key) eqn:Hgate; simpl.
    + destruct (Hcalls key (list_elem_of_here _ _) Hgate) as (sent & Hlen & Hsent & Hcall).
      rewrite Hcall. destruct (call_provider key w) as [[r|e] w1].
      * destruct (success r).
        -- exists sent. split_and!; [simpl; lia | done |].
           by destruct (providers !! key).
        -- destruct (IH Hrest w1 (log ++ sent)%list) as (more & Hmore & HP & ->).
           exists (sent ++ more)%list. rewrite length_app, app_assoc.
           split_and!; [simpl; lia | by apply Forall_app | done].
      * exists sent. split_and!; [simpl; lia | done | done].
    + destruct (IH Hrest w log) as (more & Hmore & HP & ->).
      exists more. split_and!; [simpl; lia | done | done].
Qed.

(** X11: run against a transport that logs its requests, a routing call
    returns what it returns without the log, and the requests it adds to the
    log are at most one per candidate of the class order (4 for text, 2 for
    vision), each sent with the credential of a registered provider that was
    admissible after the lazy reset, whose credential is therefore present
    and not empty. *)
Theorem requests_go_to_admissible_providers :
  ∀ (world : Type) (post : world -> request -> post_outcome * world)
    now (providers : gmap string ProviderConfig) image_base64 prompt system w log,
    let current := _check_daily_reset now providers in
    (∃ sent,
       route_text (logged post) now providers prompt system (w, log)
       = (let '(r, providers', w') := route_text post now providers prompt system w in
          (r, providers', (w', (log ++ sent)%list))) ∧
       (length sent <= 4)%nat ∧
       ∀ req, req ∈ sent ->
         ∃ key p, current !! key = Some p ∧ _can_use_provider current key = true ∧
                  truthy_str (api_key p) = true ∧ addressed_to p req) ∧
    (∃ sent,
       route_vision (logged post) now providers image_base64 prompt system (w, log)
       = (let '(r, providers', w') :=
            route_vision post now providers image_base64 prompt system w in
          (r, providers', (w', (log ++ sent)%list))) ∧
       (length sent <= 2)%nat ∧
       ∀ req, req ∈ sent ->
         ∃ key p, current !! key = Some p ∧ _can_use_provider current key = true ∧
                  truthy_str (api_key p) = true ∧ addressed_to p req).
Proof.
  intros world post now providers image_base64 prompt system w log current.
  set (P := fun req : request =>
              ∃ key p, current !! key = Some p ∧ _can_use_provider current key = true ∧
                       truthy_str (api_key p) = true ∧ addressed_to p req).
  assert (∀ key p sent, current !! key = Some p -> _can_use_provider current key = true ->
            Forall (addressed_to p) sent -> Forall P sent) as Hlift.
  { intros key p sent Hp Hcan Hsent. eapply Forall_impl; [exact Hsent|].
    intros req Hreq. exists key, p. split_and!; try done.
    apply can_use_true in Hcan as (q & Hq & Hkey & _). congruence. }
  split.
  - destruct (sweep_logged (_can_use_provider current)
                (fun key => _call_text_provider post current key prompt system)
                (fun key => _call_text_provider (logged post) current key prompt system)
                exhausted_text P current text_providers) with (w := w) (log := log)
      as (sent & Hlen & Hsent & Heq).
    { intros key _ Hcan. destruct (can_use_known _ _ Hcan) as [p Hp].
      destruct (call_text_logged post current key p prompt system Hp)
        as (sent & Hlen & Hsent & Hcall).
      exists sent. split_and!; [done | by eapply Hlift | done]. }
    exists sent. split_and!.
    + unfold route_text. fold current. by rewrite !route_text_loop_sweep.
    + exact Hlen.
    + by apply Forall_forall.
  - destruct (sweep_logged (vision_gate current)
                (fun key => _call_vision_provider post current key image_base64 prompt system)
                (fun key => _call_vision_provider (logged post) current key image_base64
                              prompt system)
                exhausted_vision P current vision_providers) with (w := w) (log := log)
      as (sent & Hlen & Hsent & Heq).
    { intros key _ Hgate. pose proof (vision_gate_can_use _ _ Hgate) as Hcan.
      destruct (can_use_known _ _ Hcan) as [p Hp].
      destruct (call_vision_logged post current key p image_base64 prompt system Hp)
        as (sent & Hlen & Hsent & Hcall).
      exists sent. split_and!; [done | by eapply Hlift | done]. }
    exists sent. split_and!.
    + unfold route_vision. fold current. by rewrite !route_vision_loop_sweep.
    + exact Hlen.
    + by apply Forall_forall.
Qed.

(** ** The system instruction *)

Section EmptySystem.
Context {world : Type}.
Variable post : world -> request -> post_outcome * world.

Lemma call_text_empty_system (providers : gmap string ProviderConfig) key prompt w :
  _call_text_provider post providers key prompt (Some "") w
  = _call_text_provider post providers key prompt None w.
Proof. unfold _call_text_provider. by destruct (providers !! key). Qed.

Lemma call_vision_empty_system (providers : gmap string ProviderConfig) key
    image_base64 prompt w :
  _call_vision_provider post providers key image_base64 prompt (Some "") w
  = _call_vision_provider post providers key image_base64 prompt None w.
Proof. unfold _call_vision_provider. by destruct (providers !! key). Qed.

Lemma route_text_loop_empty_system (providers : gmap string ProviderConfig) prompt order w :
  route_text_loop post providers prompt (Some "") order w
  = route_text_loop post providers prompt None order w.
Proof.
  revert w. induction order as [|key order IH]; intros w; simpl; [done|].
  rewrite call_text_empty_system.
  destruct (_can_use_provider providers key); simpl; [|apply IH].
  destruct (_call_text_provider post providers key prompt None w) as [[r|e] w1]; [|done].
  destruct (success r); [done|apply IH].
Qed.

Lemma route_vision_loop_empty_system (providers : gmap string ProviderConfig)
    image_base64 prompt order w :
  route_vision_loop post providers image_base64 prompt (Some "") order w
  = route_vision_loop post providers image_base64 prompt None order w.
Proof.
  revert w. induction order as [|key order IH]; intros w; simpl; [done|].
  rewrite call_vision_empty_system.
  destruct (providers !! key) as [p|]; [|apply IH].
  destruct (vision_capable p); simpl; [|apply IH].
  destruct (_can_use_provider providers key); simpl; [|apply IH].
  destruct (_call_vision_provider post providers key image_base64 prompt None w)
    as [[r|e] w1]; [|done].
  destruct (success r); [done|apply IH].
Qed.
End EmptySystem.

(** X12: an empty system instruction is no system instruction: with the
    empty string a routing call sends the same requests and returns the same
    result and registry as with [None]. *)
Theorem empty_system_is_no_system :
  ∀ (world : Type) (post : world -> request -> post_outcome * world)
    now (providers : gmap string ProviderConfig) image_base64 prompt w,
    route_text post now providers prompt (Some "") w
    = route_text post now providers prompt None w ∧
    route_vision post now providers image_base64 prompt (Some "") w
    = route_vision post now providers image_base64 prompt None w.
Proof.
  intros world post now providers image_base64 prompt w. split.
  - apply route_text_loop_empty_system.
  - apply route_vision_loop_empty_system.
Qed.

(** ** Reading the text of a reply *)

Lemma field_getitem key data v : field key data = Some v -> getitem data key = Ok v.
Proof. destruct data; simpl; try done. by intros ->. Qed.

Lemma elem0_getitem0 data x : elem0 data = Some x -> getitem0 data = Ok x.
Proof.
  destruct data as [| | | | |items|]; simpl; try done.
  destruct items; [done|]. by intros [= ->].
Qed.

(** X13: the Python subscriptions the adapters apply to a reply find a text
    exactly when the reply holds one at the provider's path read strictly
    (keys in objects, index 0 in arrays), and then it is that text; in
    particular the first character of a string is never taken for an array
    element.  The one deviation is the HuggingFace reader, which answers an
    object without [generated_text] with the empty string. *)
Theorem reply_text_is_read_at_its_path :
  (∀ data v, chat_content data = Ok v <-> chat_text_field data = Some v) ∧
  (∀ data v, gemini_text data = Ok v <-> gemini_text_field data = Some v) ∧
  (∀ data v, huggingface_text data = Ok v <->
             huggingface_text_field data = Some v ∨
             (is_object data = true ∧ huggingface_text_field data = None ∧ v = JStr "")).
Proof.
  split_and!.
  - intros data v. split; [apply chat_content_ok|].
    unfold chat_content, chat_text_field.
    destruct (field "choices" data) as [choices|] eqn:E1; simpl; [|done].
    destruct (elem0 choices) as [first|] eqn:E2; simpl; [|done].
    destruct (field "message" first) as [msg|] eqn:E3; simpl; [|done].
    intros E4.
    rewrite (field_getitem _ _ _ E1); simpl.
    rewrite (elem0_getitem0 _ _ E2); simpl.
    rewrite (field_getitem _ _ _ E3); simpl.
    by apply field_getitem.
  - intros data v. split; [apply gemini_text_ok|].
    unfold gemini_text, gemini_text_field.
    destruct (field "candidates" data) as [candidates|] eqn:E1; simpl; [|done].
    destruct (elem0 candidates) as [first|] eqn:E2; simpl; [|done].
    destruct (field "content" first) as [content|] eqn:E3; simpl; [|done].
    destruct (field "parts" content) as [parts|] eqn:E4; simpl; [|done].
    destruct (elem0 parts) as [part|] eqn:E5; simpl; [|done].
    intros E6.
    rewrite (field_getitem _ _ _ E1); simpl.
    rewrite (elem0_getitem0 _ _ E2); simpl.
    rewrite (field_getitem _ _ _ E3); simpl.
    rewrite (field_getitem _ _ _ E4); simpl.
    rewrite (elem0_getitem0 _ _ E5); simpl.
    by apply field_getitem.
  - intros data v. split; [apply huggingface_text_ok|].
    destruct data as [| | | | |items|fields]; simpl;
      try (by intros [?|(? & _)]).
    + destruct items as [|first rest]; simpl; [by intros [?|(? & _)]|].
      intros [H|(? & _)]; [|done]. by apply field_getitem.
    + destruct (assoc "generated_text" fields); [intros [[= ->]|(_ & ? & _)]; done|].
      intros [?|(_ & _ & ->)]; done.
Qed.

(** ** Provider calls outside the class *)

(** X14: a provider call for a key that is not registered raises [KeyError]
    before anything is sent; for a registered provider that has no adapter in
    the class it returns a failure dict naming the provider, with the text
    "Unknown provider" or "Unknown vision provider", and sends nothing. *)
Theorem provider_call_without_adapter :
  ∀ (world : Type) (post : world -> request -> post_outcome * world)
    (providers : gmap string ProviderConfig) key image_base64 prompt system w,
    (providers !! key = None ->
     _call_text_provider post providers key prompt system w = (Raise (KeyError key), w) ∧
     _call_vision_provider post providers key image_base64 prompt system w
     = (Raise (KeyError key), w)) ∧
    (is_Some (providers !! key) -> key ∉ text_providers ->
     _call_text_provider post providers key prompt system w
     = (Ok (Failure (Literal "Unknown provider") (Some key)), w)) ∧
    (is_Some (providers !! key) -> key ∉ vision_providers ->
     _call_vision_provider post providers key image_base64 prompt system w
     = (Ok (Failure (Literal "Unknown vision provider") (Some key)), w)).
Proof.
  intros world post providers key image_base64 prompt system w. split_and!.
  - intros Hnone. unfold _call_text_provider, _call_vision_provider. by rewrite Hnone.
  - intros [p Hp] Hout. unfold _call_text_provider. rewrite Hp.
    unfold text_providers in Hout. rewrite !not_elem_of_cons in Hout.
    destruct Hout as (? & ? & ? & ? & _).
    destruct (String.eqb_spec key "opencode_zen"); [done|].
    destruct (String.eqb_spec key "mistral"); [done|].
    destruct (String.eqb_spec key "groq"); [done|].
    destruct (String.eqb_spec key "huggingface"); [done|]. done.
  - intros [p Hp] Hout. unfold _call_vision_provider. rewrite Hp.
    unfold vision_providers in Hout. rewrite !not_elem_of_cons in Hout.
    destruct Hout as (? & ? & _).
    destruct (String.eqb_spec key "gemini"); [done|].
    destruct (String.eqb_spec key "groq"); [done|]. done.
Qed.

Lemma provider_call_without_adapter_witness :
  _call_text_provider scripted sample_router "gemini" "hi" None
    ([ok_reply (chat_reply "yo")], [])
  = (Ok (Failure (Literal "Unknown provider") (Some "gemini")),
     ([ok_reply (chat_reply "yo")], [])) ∧
  _call_vision_provider scripted sample_router "nobody" "aGk=" "hi" None
    ([ok_reply (chat_reply "yo")], [])
  = (Raise (KeyError "nobody"), ([ok_reply (chat_reply "yo")], [])).
Proof.
  destruct (provider_call_without_adapter _ scripted sample_router "gemini" "aGk=" "hi" None
              ([ok_reply (chat_reply "yo")], [])) as (_ & Htext & _).
  destruct (provider_call_without_adapter _ scripted sample_router "nobody" "aGk=" "hi" None
              ([ok_reply (chat_reply "yo")], [])) as (Hnone & _ & _).
  split.
  - apply Htext; [by eexists | apply (bool_decide_unpack _); by vm_compute].
  - apply Hnone. reflexivity.
Defined.

(** ** Where a success comes from *)

(** X15: a routing call does not make up a success: when it returns a
    success dict with text [text] for provider [key], [key] is a candidate
    of the class, the last request of the call got a 2xx reply with a JSON
    body, and the body holds [text] at the path of [key] -- or, for
    HuggingFace alone, the body is an object without [generated_text] and
    [text] is the empty string. *)
Theorem success_comes_from_a_reply :
  ∀ (world : Type) (post : world -> request -> post_outcome * world)
    now (providers : gmap string ProviderConfig) image_base64 prompt system w
    text key mdl providers' w',
    (route_text post now providers prompt system w
     = (Ok (Success text key mdl), providers', w') ->
     key ∈ text_providers ∧
     ∃ w1 req reply data,
       post w1 req = (PostResponse reply, w') ∧
       is_success (status_code reply) = true ∧ body reply = Some data ∧
       (text_field_of key data = Some text ∨
        (key = "huggingface" ∧ is_object data = true ∧
         huggingface_text_field data = None ∧ text = JStr ""))) ∧
    (route_vision post now providers image_base64 prompt system w
     = (Ok (Success text key mdl), providers', w') ->
     key ∈ vision_providers ∧
     ∃ w1 req reply data,
       post w1 req = (PostResponse reply, w') ∧
       is_success (status_code reply) = true ∧ body reply = Some data ∧
       vision_field_of key data = Some text).
Proof.
  intros world post now providers image_base64 prompt system w text key mdl providers' w'.
  split; intros Hroute.
  - destruct (route_text_outcome post now providers prompt system w)
      as (r & st & w2 & Heq & Hcases).
    rewrite Hroute in Heq. injection Heq as <- <- <-.
    destruct Hcases as [([=] & _)
                       |[(r' & pre & k & rest & p & w1 & [= <-] & Horder & _ & _ & Hcall & _
                          & Hp & _)
                        |(e & w1 & req & [=] & _)]].
    pose proof (call_text_provider_served post _ _ _ _ _ _ _ _ Hp Hcall) as Hserved.
    simpl in Hserved. injection Hserved as ->. split.
    + rewrite Horder. apply elem_of_app. right. apply list_elem_of_here.
    + exists w1. by eapply call_text_provider_success.
  - destruct (route_vision_outcome post now providers image_base64 prompt system w)
      as (r & st & w2 & Heq & Hcases).
    rewrite Hroute in Heq. injection Heq as <- <- <-.
    destruct Hcases as [([=] & _)
                       |[(r' & pre & k & rest & p & w1 & [= <-] & Horder & _ & _ & Hcall & _
                          & Hp & _)
                        |(e & w1 & req & [=] & _)]].
    pose proof (call_vision_provider_served post _ _ _ _ _ _ _ _ _ Hp Hcall) as Hserved.
    simpl in Hserved. injection Hserved as ->. split.
    + rewrite Horder. apply elem_of_app. right. apply list_elem_of_here.
    + exists w1. by eapply call_vision_provider_success.
Qed.

Lemma success_comes_from_a_reply_witness :
  "groq" ∈ text_providers ∧
  ∃ w1 req reply data,
    scripted w1 req
    = (PostResponse reply,
       snd (route_text scripted (day 10) sample_router "hi" None
              ([server_error; ok_reply (chat_reply "yo")], []))) ∧
    is_success (status_code reply) = true ∧ body reply = Some data ∧
    (text_field_of "groq" data = Some (JStr "yo") ∨
     ("groq" = "huggingface" ∧ is_object data = true ∧
      huggingface_text_field data = None ∧ JStr "yo" = JStr "")).
Proof.
  eapply (proj1 (success_comes_from_a_reply _ scripted (day 10) sample_router "" "hi" None
                   ([server_error; ok_reply (chat_reply "yo")], [])
                   (JStr "yo") "groq" (Some "llama-3.1-70b-versatile") _ _)).
  reflexivity.
Defined.

(** ** What a failing routing call returns *)

(** X16: the failure dict of a single provider never reaches the caller: a
    routing call that returns without success returns exactly the aggregate
    failure of its class, with no provider attached, and it does so only
    after every candidate of the order was skipped by the gate or called
    without success.  A routing call that does not return was left by what
    the transport raised past [except Exception]. *)
Theorem routing_failure_is_aggregate :
  ∀ (world : Type) (post : world -> request -> post_outcome * world)
    now (providers : gmap string ProviderConfig) image_base64 prompt system w,
    let current := _check_daily_reset now providers in
    (∃ x providers' w',
       route_text post now providers prompt system w = (x, providers', w') ∧
       match x with
       | Ok r =>
           if success r then True
           else r = Failure (Literal "All text providers failed or exhausted") None ∧
                fruitless (_can_use_provider current)
                  (fun key => _call_text_provider post current key prompt system)
                  text_providers w w'
       | Raise e => is_exception e = false ∧ ∃ w1 req, post w1 req = (PostRaises e, w')
       end) ∧
    (∃ x providers' w',
       route_vision post now providers image_base64 prompt system w
       = (x, providers', w') ∧
       match x with
       | Ok r =>
           if success r then True
           else r = Failure (Literal "All vision providers failed or exhausted") None ∧
                fruitless (vision_gate current)
                  (fun key => _call_vision_provider post current key image_base64 prompt
                                system)
                  vision_providers w w'
       | Raise e => is_exception e = false ∧ ∃ w1 req, post w1 req = (PostRaises e, w')
       end).
Proof.
  intros world post now providers image_base64 prompt system w current. split.
  - destruct (route_text_outcome post now providers prompt system w)
      as (x & providers' & w' & Hroute & Hcases).
    exists x, providers', w'. split; [done|]. fold current in Hcases.
    destruct Hcases as [(-> & _ & Hall)
                       |[(r & pre & k & rest & p & w1 & -> & _ & _ & _ & _ & -> & _)
                        |(e & w1 & req & -> & _ & He & Hpost)]];
      [done | done | by eauto].
  - destruct (route_vision_outcome post now providers image_base64 prompt system w)
      as (x & providers' & w' & Hroute & Hcases).
    exists x, providers', w'. split; [done|]. fold current in Hcases.
    destruct Hcases as [(-> & _ & Hall)
                       |[(r & pre & k & rest & p & w1 & -> & _ & _ & _ & _ & -> & _)
                        |(e & w1 & req & -> & _ & He & Hpost)]];
      [done | done | by eauto].
Qed.

(** ** Admissibility on the router's registry *)

Lemma descriptor_record_use p : descriptor (record_use p) = descriptor p.
Proof. done. Qed.

Lemma init_descriptors getenv t_zen t_gemini t_mistral t_groq t_hf now :
  descriptor <$> __init__ getenv t_zen t_gemini t_mistral t_groq t_hf now
  = descriptor <$> registry getenv t_zen t_gemini t_mistral t_groq t_hf.
Proof.
  unfold __init__, _check_daily_reset. rewrite <- map_fmap_compose.
  apply map_fmap_ext. intros key p _. apply descriptor_reset.
Qed.

(** Every registry the router goes through has the descriptors it was
    constructed with. *)
Lemma run_keeps_descriptors {world : Type}
    (post : world -> request -> post_outcome * world)
    calls (providers : gmap string ProviderConfig) w :
  descriptor <$> fst (run post calls providers w) = descriptor <$> providers.
Proof.
  apply (run_invariant post (fun current => descriptor <$> current = descriptor <$> providers));
    [| |done].
  - intros now current <-. unfold _check_daily_reset. rewrite <- map_fmap_compose.
    apply map_fmap_ext. intros key p _. apply descriptor_reset.
  - intros current served p <- _ Hp. rewrite fmap_insert, descriptor_record_use.
    apply insert_id. by rewrite lookup_fmap, Hp.
Qed.

Lemma constructed_limits_positive getenv t_zen t_gemini t_mistral t_groq t_hf
    (providers : gmap string ProviderConfig) key p limit :
  descriptor <$> providers
  = descriptor <$> registry getenv t_zen t_gemini t_mistral t_groq t_hf ->
  providers !! key = Some p -> rate_limit p = Some limit -> 0 < limit.
Proof.
  intros Hsame Hp Hlimit.
  assert (descriptor <$> providers !! key
          = descriptor <$> registry getenv t_zen t_gemini t_mistral t_groq t_hf !! key)
    as Hkey by (by rewrite <- !lookup_fmap, Hsame).
  rewrite Hp, registry_lookup in Hkey. unfold descriptor in Hkey.
  repeat case_decide; simpl in Hkey; try done;
    injection Hkey as _ _ _ _ _ _ Hl; rewrite Hlimit in Hl; try done;
    injection Hl as ->; lia.
Qed.

(** C3: on the registry of the router -- the descriptors [__init__] builds,
    with any counters and reset dates -- [_can_use_provider] answers false
    exactly when the provider is unknown, its credential is absent (or
    empty), or its limit is set and reached by the counter.  A provider
    without credential is never admissible.  A credentialed provider with a
    limit L and a counter at 0 is admissible after n recorded uses exactly
    when n < L, so it becomes inadmissible after exactly L uses; the first
    reset on a later date makes it admissible again with a counter of 0. *)
Theorem router_admissibility :
  ∀ getenv t_zen t_gemini t_mistral t_groq t_hf (providers : gmap string ProviderConfig),
    descriptor <$> providers
    = descriptor <$> registry getenv t_zen t_gemini t_mistral t_groq t_hf ->
    (∀ key,
       _can_use_provider providers key = false <->
       providers !! key = None ∨
       ∃ p, providers !! key = Some p ∧
            (truthy_str (api_key p) = false ∨
             ∃ limit, rate_limit p = Some limit ∧ limit <= requests_today p)) ∧
    (∀ key p,
       providers !! key = Some p -> truthy_str (api_key p) = false ->
       _can_use_provider providers key = false) ∧
    (∀ key p limit,
       providers !! key = Some p -> truthy_str (api_key p) = true ->
       rate_limit p = Some limit -> requests_today p = 0 ->
       (∀ n : nat,
          _can_use_provider (record_uses n key providers) key = (Z.of_nat n <? limit)) ∧
       (∀ now, date (last_reset p) < date now ->
          let rolled :=
            _check_daily_reset now (record_uses (Z.to_nat limit) key providers) in
          _can_use_provider rolled key = true ∧ consumed rolled key = Some 0)).
Proof.
  intros getenv t_zen t_gemini t_mistral t_groq t_hf providers Hsame.
  pose proof (fun key p limit =>
                constructed_limits_positive getenv t_zen t_gemini t_mistral t_groq t_hf
                  providers key p limit Hsame) as Hpos.
  split_and!.
  - intros key. rewrite can_use_false. split.
    + intros [?|(p & Hp & [?|(limit & Hl & _ & Hle)])]; [by left|right..];
        exists p; (split; [done|]); [by left|right; by exists limit].
    + intros [?|(p & Hp & [?|(limit & Hl & Hle)])]; [by left|right..];
        exists p; (split; [done|]); [by left|right].
      exists limit. split_and!; [done| |done].
      specialize (Hpos key p limit Hp Hl). lia.
  - intros key p Hp Hkey. apply can_use_false. right. exists p. auto.
  - intros key p limit Hp Hkey Hlimit Hzero.
    specialize (Hpos key p limit Hp Hlimit). split.
    + intros n. unfold _can_use_provider.
      rewrite (lookup_record_uses n key providers p Hp). simpl.
      rewrite Hkey, Hlimit, Hzero. simpl.
      destruct (Z.eqb_spec limit 0); [lia|]. simpl.
      destruct (Z.leb_spec limit (0 + Z.of_nat n)), (Z.ltb_spec (Z.of_nat n) limit);
        simpl; auto; lia.
    + intros now Hnow rolled. subst rolled. unfold _can_use_provider, consumed.
      rewrite lookup_check_daily_reset, (lookup_record_uses _ key providers p Hp). simpl.
      unfold reset_if_new_day. simpl.
      destruct (Z.ltb_spec (date (last_reset p)) (date now)); [|lia]. simpl.
      rewrite Hkey, Hlimit. simpl.
      destruct (Z.eqb_spec limit 0); [lia|]. simpl.
      destruct (Z.leb_spec limit 0); [lia|]. done.
Qed.

Lemma router_admissibility_witness :
  let providers :=
    fst (run (always (ok_reply (chat_reply "yo")))
           [RouteText (day 10) "hi" None; GetQuotaStatus (day 11)] sample_router tt) in
  _can_use_provider providers "mistral" = false ∧
  _can_use_provider (record_uses 1499 "gemini" providers) "gemini" = true ∧
  _can_use_provider (record_uses 1500 "gemini" providers) "gemini" = false ∧
  _can_use_provider
    (_check_daily_reset (day 12) (record_uses 1500 "gemini" providers)) "gemini" = true.
Proof.
  intros providers.
  destruct (router_admissibility sample_env (day 10) (day 10) (day 10) (day 10) (day 10)
              providers) as (_ & Habsent & Hlimited).
  { unfold providers. rewrite run_keeps_descriptors. apply init_descriptors. }
  edestruct (Hlimited "gemini") as [Huses Hroll];
    [reflexivity | reflexivity | reflexivity | reflexivity |].
  split_and!.
  - eapply Habsent; reflexivity.
  - apply (Huses 1499%nat).
  - apply (Huses 1500%nat).
  - apply (Hroll (day 12)). simpl. lia.
Defined.
